(** * Projects gallery of the portfolio site: a model of [projects.js]

    The gallery fetches a user's repositories, normalises them, caches the
    result in the browser's storage and renders a filterable grid.  This file
    embeds the data shaping and decision logic of that script and proves the
    properties its specification states about it.

    Modelling conventions.
    - A JavaScript string is a [string]; its characters are read as ASCII
      code units, and case mapping is the one JavaScript applies to ASCII.
    - A JavaScript number that holds an integer is a [Z].
    - A time stamp (the ISO-8601 text of [pushed_at]) is represented by the
      number of milliseconds [new Date(iso).getTime()] yields for it.
    - [null] and [undefined] are [None].
    - The browser's storage, the clock, the network replies and the form
      controls are passed explicitly; the host's [JSON] and collation are
      interfaces, with an executable instance for running examples.
    - [Array.prototype.sort], which the language requires to be stable, is
      a stable insertion sort.
    - The regular expressions built from exclusion patterns are modelled for
      plain ASCII characters, [.] and [.*]; an operation that would need
      more of the regular-expression language returns [None]. *)

From Stdlib Require Import ZArith List Bool Ascii String Lia.
From Stdlib Require Import Sorting.Permutation Sorting.Sorted.
From Stdlib Require Import Numbers.DecimalString.
From stdpp Require Import base option list gmap strings.

Local Open Scope Z_scope.

(* String concatenation computes by [simpl] on a constructor. *)
#[local] Arguments String.append !s1 s2 : simpl nomatch.

(** ** JavaScript primitives used by the script *)

Module Js.

(** A string literal given by its bytes (for the non-ASCII text of the source). *)
Definition bytes (l : list nat) : string :=
  string_of_list_ascii (List.map ascii_of_nat l).

(** The double quote character, as a one-character string. *)
Definition dq : string := String "034"%char EmptyString.

(** Line feed, as a one-character string. *)
Definition nl : string := String "010"%char EmptyString.

(** [x || y] on strings: the empty string is falsy. *)
Definition str_or (x y : string) : string :=
  match x with EmptyString => y | _ => x end.

(** Truthiness of a string that may be [null]. *)
Definition truthy_str (x : option string) : bool :=
  match x with
  | Some (String _ _) => true
  | _ => false
  end.

(** [x || y] where both may be [null] and the empty string is falsy. *)
Definition opt_or (x y : option string) : option string :=
  if truthy_str x then x else y.

(** [x || 0] on a number that may be missing. *)
Definition num_or0 (x : option Z) : Z :=
  match x with Some n => n | None => 0 end.

(** Template-literal rendering of a number. *)
Definition string_of_Z (z : Z) : string :=
  NilZero.string_of_int (Z.to_int z).

(** Template-literal rendering of a value that may be [undefined]. *)
Definition string_of_undef (x : option string) : string :=
  match x with Some s => s | None => "undefined" end.

Definition is_upper (c : ascii) : bool :=
  (65 <=? nat_of_ascii c)%nat && (nat_of_ascii c <=? 90)%nat.

Definition is_lower (c : ascii) : bool :=
  (97 <=? nat_of_ascii c)%nat && (nat_of_ascii c <=? 122)%nat.

Definition lower_char (c : ascii) : ascii :=
  if is_upper c then ascii_of_nat (nat_of_ascii c + 32) else c.

Definition upper_char (c : ascii) : ascii :=
  if is_lower c then ascii_of_nat (nat_of_ascii c - 32) else c.

(** [String.prototype.toLowerCase]. *)
Fixpoint toLowerCase (s : string) : string :=
  match s with
  | EmptyString => EmptyString
  | String c s' => String (lower_char c) (toLowerCase s')
  end.

(** White space removed by [trim]: TAB, LF, VT, FF, CR and SPACE. *)
Definition is_space (c : ascii) : bool :=
  let n := nat_of_ascii c in
  ((9 <=? n)%nat && (n <=? 13)%nat) || (n =? 32)%nat.

Fixpoint trimStart (s : string) : string :=
  match s with
  | EmptyString => EmptyString
  | String c s' => if is_space c then trimStart s' else s
  end.

Fixpoint trimEnd (s : string) : string :=
  match s with
  | EmptyString => EmptyString
  | String c s' =>
      match trimEnd s' with
      | EmptyString => if is_space c then EmptyString else String c EmptyString
      | t => String c t
      end
  end.

(** [String.prototype.trim]. *)
Definition trim (s : string) : string := trimEnd (trimStart s).

(** [hay.startsWith(needle)]. *)
Fixpoint startsWith (needle hay : string) : bool :=
  match needle, hay with
  | EmptyString, _ => true
  | String _ _, EmptyString => false
  | String a n', String b h' => Ascii.eqb a b && startsWith n' h'
  end.

(** [hay.includes(needle)]. *)
Fixpoint includes (hay needle : string) : bool :=
  startsWith needle hay ||
  match hay with
  | EmptyString => false
  | String _ h' => includes h' needle
  end.

(** [arr.join(sep)] on an array of strings. *)
Fixpoint join (sep : string) (l : list string) : string :=
  match l with
  | [] => EmptyString
  | [x] => x
  | x :: l' => x +:+ sep +:+ join sep l'
  end.

(** [str.slice(start, end)], with JavaScript's treatment of negative and
    out-of-range indices. *)
Definition clamp_index (len i : Z) : Z :=
  if i <? 0 then Z.max (len + i) 0 else Z.min i len.

Definition slice (s : string) (start stop : Z) : string :=
  let len := Z.of_nat (String.length s) in
  let from := clamp_index len start in
  let to := clamp_index len stop in
  String.substring (Z.to_nat from) (Z.to_nat (Z.max (to - from) 0)) s.

(** [str.replace(/c/g, by)] for a one-character pattern [c]. *)
Fixpoint replaceAll (c : ascii) (by_ : string) (s : string) : string :=
  match s with
  | EmptyString => EmptyString
  | String x s' =>
      if Ascii.eqb x c then by_ +:+ replaceAll c by_ s'
      else String x (replaceAll c by_ s')
  end.

(** [str.split(c)] for a one-character separator. *)
Fixpoint split (c : ascii) (s : string) : list string :=
  match s with
  | EmptyString => [EmptyString]
  | String x s' =>
      match split c s' with
      | [] => [EmptyString]
      | w :: ws => if Ascii.eqb x c then EmptyString :: w :: ws else String x w :: ws
      end
  end.

(** [Array.prototype.sort(cmp)]: the language requires the sort to be stable;
    it is modelled by stable insertion, where [cmp x y <= 0] keeps [x] first. *)
Section Sort.
Context {A : Type} (cmp : A -> A -> Z).

Fixpoint insert_sorted (x : A) (l : list A) : list A :=
  match l with
  | [] => [x]
  | y :: l' => if cmp x y <=? 0 then x :: y :: l' else y :: insert_sorted x l'
  end.

Definition sort (l : list A) : list A := List.fold_right insert_sorted [] l.

End Sort.

End Js.

(** ** Data model *)

(** A time stamp: milliseconds since the epoch. *)
Abbreviation timestamp := Z (only parsing).

(** [new Date(x).getTime()] for a time stamp that may be [null]:
    [new Date(null)] is the epoch itself. *)
Definition date_ms (x : option timestamp) : Z :=
  match x with Some t => t | None => 0 end.

(** The canonical repository record built by [normalizeRepo]. *)
Record repo := {
  name : string;
  description : string;
  html_url : option string;
  homepage : option string;
  stars : Z;
  forks : Z;
  updated : option timestamp;
  language : string;
  topics : list string
}.

(** An element of the REST listing, or of the array [fetchPinned] returns:
    the fields [normalizeRepo] and the listing filter read. *)
Record raw_repo := {
  r_name : string;
  r_description : option string;
  r_html_url : option string;
  r_url : option string;
  r_homepage : option string;
  r_homepageUrl : option string;
  r_stargazers_count : option Z;
  r_forks_count : option Z;
  r_pushed_at : option timestamp;
  r_updated_at : option timestamp;
  r_language : option string;
  r_primaryLanguage : option string;        (* primaryLanguage.name *)
  r_topics : option (list string);
  r_repository_topics : option (list string); (* repository_topics.nodes[i].topic.name *)
  r_fork : bool;
  r_archived : bool
}.

(** A node of the GraphQL reply's [pinnedItems]. *)
Record gql_node := {
  n_name : string;
  n_url : option string;
  n_description : option string;
  n_stargazerCount : option Z;
  n_forks_totalCount : option Z;            (* forks?.totalCount *)
  n_pushedAt : option timestamp;
  n_primaryLanguage : option string;        (* primaryLanguage?.name *)
  n_repositoryTopics : option (list string); (* repositoryTopics?.nodes[i].topic.name *)
  n_homepageUrl : option string
}.

(** ** Normalisation *)

Definition normalizeRepo (r : raw_repo) : repo := {|
  name := r_name r;
  description := Js.str_or (default "" (r_description r)) "";
  html_url := Js.opt_or (r_html_url r) (r_url r);
  homepage := Js.opt_or (r_homepage r) (Js.opt_or (r_homepageUrl r) None);
  stars := Js.num_or0 (r_stargazers_count r);
  forks := Js.num_or0 (r_forks_count r);
  updated :=
    match r_pushed_at r with
    | Some t => Some t
    | None => match r_updated_at r with Some t => Some t | None => None end
    end;
  language :=
    default "Unknown" (Js.opt_or (r_language r) (Js.opt_or (r_primaryLanguage r) None));
  topics :=
    match r_topics r with
    | Some ts => ts
    | None => match r_repository_topics r with Some ts => ts | None => [] end
    end
|}.

(** The object [fetchPinned] builds from one GraphQL node. *)
Definition pinned_node (n : gql_node) : raw_repo := {|
  r_name := n_name n;
  r_description := n_description n;
  r_html_url := n_url n;
  r_url := None;
  r_homepage := Js.opt_or (n_homepageUrl n) None;
  r_homepageUrl := None;
  r_stargazers_count := n_stargazerCount n;
  r_forks_count := Some (Js.num_or0 (n_forks_totalCount n));
  r_pushed_at := n_pushedAt n;
  r_updated_at := None;
  r_language := Js.opt_or (n_primaryLanguage n) None;
  r_primaryLanguage := None;
  r_topics := Some (default [] (n_repositoryTopics n));
  r_repository_topics := None;
  r_fork := false;
  r_archived := false
|}.

(** [fetchPinned]: no request without a token; a failed or empty reply
    ([reply = None]) is [null]. *)
Definition fetchPinned (token : option string) (reply : option (list gql_node))
  : option (list raw_repo) :=
  if negb (Js.truthy_str token) then None
  else
    match reply with
    | None => None
    | Some nodes => Some (List.map pinned_node nodes)
    end.

(** ** Relative time *)

Definition relativeTime (now : Z) (iso : option timestamp) : string :=
  match iso with
  | None => ""
  | Some then_ =>
      let diff := now - then_ in
      let sec := diff / 1000 in
      if sec <? 60 then Js.string_of_Z sec +:+ "s" else
      let min := sec / 60 in
      if min <? 60 then Js.string_of_Z min +:+ "m" else
      let hr := min / 60 in
      if hr <? 24 then Js.string_of_Z hr +:+ "h" else
      let days := hr / 24 in
      if days <? 30 then Js.string_of_Z days +:+ "d" else
      let months := days / 30 in
      if months <? 12 then Js.string_of_Z months +:+ "mo" else
      let years := months / 12 in
      Js.string_of_Z years +:+ "y"
  end.

(** ** Truncation and escaping *)

(** The marker appended by [truncate], byte for byte as in the source. *)
Definition ellipsis : string := Js.bytes [226; 128; 154; 195; 132; 194; 182]%nat.

(** The text shown for a missing language, byte for byte as in the source. *)
Definition dash : string := Js.bytes [226; 128; 154; 195; 132; 195; 174]%nat.

Definition truncate (str : string) (n : Z) : string :=
  match str with
  | EmptyString => ""
  | _ =>
      if Z.of_nat (String.length str) >? n
      then Js.slice str 0 (n - 1) +:+ ellipsis
      else str
  end.

Definition escapeHtml (str : string) : string :=
  Js.replaceAll "034" "&quot;"
    (Js.replaceAll ">" "&gt;"
      (Js.replaceAll "<" "&lt;"
        (Js.replaceAll "&" "&amp;" str)))%char.

(** ** Cards *)

(** A chip appended to the card's topic row: [renderChip]. *)
Record chip := { chip_class : string; chip_text : string }.

Definition renderChip (text : string) : chip :=
  {| chip_class := "chip"; chip_text := text |}.

(** The [article] element [buildCard] returns: the markup assigned to
    [innerHTML] and the chips appended afterwards through the DOM. *)
Record card := {
  card_class : string;
  card_tabindex : string;
  card_innerHTML : string;
  card_chips : list chip
}.

(** [name="value"] with the quotes of the template. *)
Definition attr (k v : string) : string := k +:+ "=" +:+ Js.dq +:+ v +:+ Js.dq.

Definition star_icon : string := Js.bytes [226; 128; 154; 226; 137; 160; 195; 170]%nat.
Definition fork_icon : string := Js.bytes [239; 163; 191; 195; 188; 195; 167; 194; 165]%nat.
Definition clock_icon : string := Js.bytes [239; 163; 191; 195; 188; 195; 175; 195; 173]%nat.

(** The [h3] line of the template: the name is interpolated as it is. *)
Definition title_line (r : repo) : string :=
  "        <h3 " +:+ attr "class" "project-title" +:+ ">" +:+ name r +:+ "</h3>".

(** The description paragraph of the template. *)
Definition desc_line (r : repo) : string :=
  "      <p " +:+ attr "class" "project-desc" +:+ " "
    +:+ attr "title" (escapeHtml (Js.str_or (description r) "")) +:+ ">"
    +:+ escapeHtml (truncate (Js.str_or (description r) "") 120) +:+ "</p>".

Definition demo_link (r : repo) : string :=
  if Js.truthy_str (homepage r)
  then "<a " +:+ attr "class" "btn btn-ghost" +:+ " "
         +:+ attr "href" (Js.string_of_undef (homepage r)) +:+ " "
         +:+ attr "target" "_blank" +:+ " " +:+ attr "rel" "noopener"
         +:+ ">Live Demo</a>"
  else "".

(** The lines of the template assigned to [innerHTML]. *)
Definition card_lines (now : Z) (r : repo) : list string :=
  [ "";
    "    <div " +:+ attr "class" "card-body" +:+ ">";
    "      <div " +:+ attr "class" "card-head" +:+ ">";
    title_line r;
    "        <div " +:+ attr "class" "project-topics" +:+ "></div>";
    "      </div>";
    desc_line r;
    "      <div " +:+ attr "class" "project-meta" +:+ ">";
    "        <span " +:+ attr "class" "meta-item" +:+ " " +:+ attr "title" "Stars" +:+ ">"
      +:+ star_icon +:+ " " +:+ Js.string_of_Z (stars r) +:+ "</span>";
    "        <span " +:+ attr "class" "meta-item" +:+ " " +:+ attr "title" "Forks" +:+ ">"
      +:+ fork_icon +:+ " " +:+ Js.string_of_Z (forks r) +:+ "</span>";
    "        <span " +:+ attr "class" "meta-item" +:+ " " +:+ attr "title" "Updated" +:+ ">"
      +:+ clock_icon +:+ " " +:+ relativeTime now (updated r) +:+ "</span>";
    "        <span " +:+ attr "class" "meta-lang" +:+ " " +:+ attr "title" "Primary language"
      +:+ ">" +:+ escapeHtml (Js.str_or (language r) dash) +:+ "</span>";
    "      </div>";
    "      <div " +:+ attr "class" "project-actions" +:+ ">";
    "        <a " +:+ attr "class" "btn btn-primary" +:+ " "
      +:+ attr "href" (Js.string_of_undef (html_url r)) +:+ " "
      +:+ attr "target" "_blank" +:+ " " +:+ attr "rel" "noopener" +:+ ">View Code</a>";
    "        " +:+ demo_link r;
    "      </div>";
    "    </div>";
    "  "
  ].

Definition card_markup (now : Z) (r : repo) : string :=
  Js.join Js.nl (card_lines now r).

Definition buildCard (now : Z) (r : repo) : card := {|
  card_class := "project-card";
  card_tabindex := "0";
  card_innerHTML := card_markup now r;
  card_chips := List.map renderChip (firstn 3 (topics r))
|}.

(** ** Deduplication *)

(** The filter of [dedupeByName], with the set [seen] threaded through. *)
Fixpoint dedupe_from (seen : gset string) (arr : list repo) : list repo :=
  match arr with
  | [] => []
  | r :: rest =>
      if decide (name r ∈ seen) then dedupe_from seen rest
      else r :: dedupe_from ({[name r]} ∪ seen) rest
  end.

Definition dedupeByName (arr : list repo) : list repo := dedupe_from ∅ arr.

(** ** Exclusion patterns *)

(** The regular expressions [matchesPattern] builds: the source text is
    [^], a body and [$]; the body is modelled when it consists of ASCII
    characters without syntactic meaning, [.] and [.*].  Other sources
    (alternation, groups, classes, escapes, quantifiers on characters, and
    the texts the constructor rejects) are outside the model: [compile]
    returns [None] for them. *)
Module RegExp.

Inductive atom := Lit (c : ascii) | Dot | DotStar.

Definition is_syntax_char (c : ascii) : bool :=
  existsb (Ascii.eqb c) (list_ascii_of_string "^$\.*+?()[]{}|").

Definition is_ascii (c : ascii) : bool := (nat_of_ascii c <? 128)%nat.

(** Line terminators, which [.] does not match. *)
Definition is_line_terminator (c : ascii) : bool :=
  Ascii.eqb c "010" || Ascii.eqb c "013".

Fixpoint parse_body (s : string) : option (list atom) :=
  match s with
  | EmptyString => None
  | String c s' =>
      if Ascii.eqb c "$" then
        match s' with EmptyString => Some [] | _ => None end
      else if Ascii.eqb c "." then
        match s' with
        | String c2 s'' =>
            if Ascii.eqb c2 "*" then cons DotStar <$> parse_body s''
            else cons Dot <$> parse_body s'
        | EmptyString => cons Dot <$> parse_body s'
        end
      else if is_syntax_char c || negb (is_ascii c) then None
      else cons (Lit c) <$> parse_body s'
  end.

(** [new RegExp(source, 'i')]. *)
Definition compile (source : string) : option (list atom) :=
  match source with
  | String c body => if Ascii.eqb c "^" then parse_body body else None
  | EmptyString => None
  end.

(** [.*] followed by the rest of the expression: the rest matches here, or
    after one more character that is not a line terminator. *)
Fixpoint star (rest : string -> bool) (s : string) : bool :=
  rest s ||
  match s with
  | String x s' => negb (is_line_terminator x) && star rest s'
  | EmptyString => false
  end.

(** [rx.test(s)] for a compiled, anchored, case-insensitive expression. *)
Fixpoint test (rx : list atom) (s : string) : bool :=
  match rx with
  | [] => match s with EmptyString => true | _ => false end
  | Lit c :: rx' =>
      match s with
      | String x s' => Ascii.eqb (Js.upper_char c) (Js.upper_char x) && test rx' s'
      | EmptyString => false
      end
  | Dot :: rx' =>
      match s with
      | String x s' => negb (is_line_terminator x) && test rx' s'
      | EmptyString => false
      end
  | DotStar :: rx' => star (test rx') s
  end.

End RegExp.

(** The predicate passed to [patterns.some]: [None] when the pattern's
    regular expression is outside the modelled fragment. *)
Definition pattern_test (nm p : string) : option bool :=
  rx ← RegExp.compile ("^" +:+ Js.replaceAll "*" ".*" p +:+ "$");
  Some (RegExp.test rx nm).

(** [patterns.some(...)]: stops at the first pattern that matches. *)
Fixpoint some_pattern (nm : string) (patterns : list string) : option bool :=
  match patterns with
  | [] => Some false
  | p :: ps =>
      match pattern_test nm p with
      | None => None
      | Some true => Some true
      | Some false => some_pattern nm ps
      end
  end.

Definition matchesPattern (nm : string) (patterns : list string) : option bool :=
  match patterns with
  | [] => Some false
  | _ => some_pattern nm patterns
  end.

(** ** The cache *)

Definition CACHE_KEY : string := "gw_projects_cache_v1".
Definition CACHE_TTL : Z := 1000 * 60 * 60.

(** The object stored under [CACHE_KEY]; a field that is absent (or holds
    [null]) is [None]. *)
Record payload := { ts : option Z; data : option (list repo) }.

(** The host's [JSON] object, at the type of the cache payload.  [JSON_parse]
    returns [None] where [JSON.parse] throws or the text is not a payload. *)
Class JSON := {
  JSON_stringify : payload -> string;
  JSON_parse : string -> option payload
}.

(** [localStorage]: the stored items, whether access is allowed at all, and
    whether a write succeeds (a full or read-only store throws on [setItem]). *)
Record Storage := {
  available : bool;
  writable : bool;
  items : gmap string string
}.

(** [localStorage.getItem(k)]; the outer [None] is a thrown exception. *)
Definition getItem (st : Storage) (k : string) : option (option string) :=
  if available st then Some (items st !! k) else None.

(** [localStorage.setItem(k, v)]; [None] is a thrown exception. *)
Definition setItem (st : Storage) (k v : string) : option Storage :=
  if available st && writable st
  then Some {| available := available st; writable := writable st;
               items := <[k := v]> (items st) |}
  else None.

Section Cache.
Context `{!JSON}.

Definition saveCache (st : Storage) (now : Z) (obj : list repo) : Storage :=
  let payload := {| ts := Some now; data := Some obj |} in
  match setItem st CACHE_KEY (JSON_stringify payload) with
  | Some st' => st'
  | None => st                                   (* catch: ignore *)
  end.

Definition loadCache (st : Storage) (now : Z) : option (list repo) :=
  match getItem st CACHE_KEY with
  | None => None                                 (* catch *)
  | Some None => None                            (* !raw *)
  | Some (Some EmptyString) => None              (* !raw *)
  | Some (Some raw) =>
      match JSON_parse raw with
      | None => None                             (* catch *)
      | Some parsed =>
          match ts parsed, data parsed with
          | None, _ | Some 0, _ => None          (* !parsed.ts *)
          | _, None => None                      (* !parsed.data *)
          | Some t, Some d => if now - t >? CACHE_TTL then None else Some d
          end
      end
  end.

End Cache.

(** ** The filter panel and the grid *)

(** The values read from the form controls on a filter pass. *)
Record controls := {
  search_value : string;
  language_value : string;
  topic_value : string;
  sort_value : string;
  pinned_only_checked : bool
}.

(** The host's collation, used by the [az] sort mode. *)
Class Intl := { localeCompare : string -> string -> Z }.

(** What [renderGrid] leaves in the root element. *)
Inductive root_content :=
  | EmptyState (cls : string) (text : string)
  | Grid (cls : string) (cards : list card).

Definition renderGrid (now : Z) (list : list repo) : root_content :=
  match list with
  | [] => EmptyState "projects-empty" "No projects match your filters."
  | _ => Grid "projects-grid-inner" (List.map (buildCard now) list)
  end.

(** The text a record is searched in. *)
Definition haystack (r : repo) : string :=
  name r +:+ " " +:+ Js.str_or (description r) "" +:+ " " +:+ Js.join " " (topics r).

(** The filtering half of [applyFilters]: the list [out] before it is sorted. *)
Definition filter_pass (pinnedFirst : bool) (repos : list repo) (c : controls) : list repo :=
  let q := Js.trim (Js.toLowerCase (Js.str_or (search_value c) "")) in
  let lang := language_value c in
  let topic := topic_value c in
  let pinnedOnlyFlag := pinned_only_checked c in
  let out := repos in
  let out :=
    if pinnedFirst && pinnedOnlyFlag
    then List.filter
           (fun r => existsb (fun p => String.eqb (name p) (name r)) (firstn 10 repos)) out
    else out in
  let out :=
    match q with
    | EmptyString => out
    | _ => List.filter (fun r => Js.includes (Js.toLowerCase (haystack r)) q) out
    end in
  let out :=
    match lang with
    | EmptyString => out
    | _ => List.filter
             (fun r => String.eqb (Js.toLowerCase (Js.str_or (language r) ""))
                                  (Js.toLowerCase lang)) out
    end in
  match topic with
  | EmptyString => out
  | _ => List.filter
           (fun r => existsb (String.eqb (Js.toLowerCase topic))
                             (List.map Js.toLowerCase (topics r))) out
  end.

Section Filters.
Context `{!Intl}.

(** The sorting half of [applyFilters]. *)
Definition sort_pass (sort : string) (out : list repo) : list repo :=
  if String.eqb sort "stars" then Js.sort (fun a b => stars b - stars a) out
  else if String.eqb sort "updated"
       then Js.sort (fun a b => date_ms (updated b) - date_ms (updated a)) out
  else if String.eqb sort "az"
       then Js.sort (fun a b => localeCompare (name a) (name b)) out
  else out.

(** The list [applyFilters] hands to [renderGrid]. *)
Definition filtered (pinnedFirst : bool) (repos : list repo) (c : controls) : list repo :=
  sort_pass (sort_value c) (filter_pass pinnedFirst repos c).

Definition applyFilters (pinnedFirst : bool) (now : Z) (repos : list repo) (c : controls)
  : root_content :=
  renderGrid now (filtered pinnedFirst repos c).

End Filters.

(** ** Initialisation *)

(** The options object passed to [initProjects]. *)
Record options := {
  profileUrl : string;
  exclude : list string;
  pinnedFirst : bool;
  perPage : Z;
  githubToken : option string
}.

(** What the page, the clock and the network present to one run. *)
Record env := {
  url_pathname : option string;           (* new URL(profileUrl).pathname; None: it throws *)
  has_root : bool;                        (* the element projects-root exists *)
  storage : Storage;
  now_load : Z;                           (* Date.now() when the cache is read *)
  now_done : Z;                           (* Date.now() once the requests have settled *)
  repos_reply : option (list raw_repo);   (* None: fetchRepos rejects *)
  pinned_reply : option (list gql_node);  (* None: no usable GraphQL reply *)
  form : controls                         (* the controls at the first filter pass *)
}.

Definition parseGithubProfile (pathname : option string) : option string :=
  match pathname with
  | None => None
  | Some p =>
      match List.filter (fun s => negb (String.eqb s "")) (Js.split "/" p) with
      | [] => None
      | part :: _ => Some part
      end
  end.

(** [fetched.filter(r => !r.fork && !r.archived && !matchesPattern(r.name, exclude))]. *)
Fixpoint keep_fetched (excl : list string) (fetched : list raw_repo)
  : option (list raw_repo) :=
  match fetched with
  | [] => Some []
  | r :: rest =>
      keep ← (if r_fork r then Some false
              else if r_archived r then Some false
              else negb <$> matchesPattern (r_name r) excl);
      rest' ← keep_fetched excl rest;
      Some (if keep : bool then r :: rest' else rest')
  end.

(** The comparator of the merge-time sort. *)
Definition is_pinned (pinned : list repo) (x : repo) : bool :=
  existsb (fun p => String.eqb (name p) (name x)) pinned.

Definition merge_cmp (pinnedFirst : bool) (pinned : list repo) (a b : repo) : Z :=
  let ai := if is_pinned pinned a then 0 else 1 in
  let bi := if is_pinned pinned b then 0 else 1 in
  if pinnedFirst && negb (ai =? bi) then ai - bi
  else if negb (stars b =? stars a) then stars b - stars a
  else date_ms (updated b) - date_ms (updated a).

(** The pinned records as the merge and the comparator see them:
    [(pinned || [])] after the optional [pinned.map(normalizeRepo)]. *)
Definition pinned_records (o : options) (e : env) : list repo :=
  match fetchPinned (githubToken o) (pinned_reply e) with
  | Some l => List.map normalizeRepo l
  | None => []
  end.

(** The body of the [try] block.  The inner [None] is an exception, caught
    by the [catch] clause; the outer [None] is an exclusion pattern outside
    the modelled fragment. *)
Definition try_fetch (o : options) (e : env) : option (option (list repo)) :=
  match repos_reply e with
  | None => Some None
  | Some fetched =>
      kept ← keep_fetched (exclude o) fetched;
      let mapped := List.map normalizeRepo kept in
      let pinned := pinned_records o e in
      let merged := dedupeByName (pinned ++ mapped) in
      Some (Some (Js.sort (merge_cmp (pinnedFirst o) pinned) merged))
  end.

(** The sample record used when neither the network nor the cache has data. *)
Definition fallback_record (now : Z) : repo := {|
  name := "profile";
  description := "Fallback sample project";
  html_url := Some "#";
  homepage := None;
  stars := 0;
  forks := 0;
  updated := Some now;
  language := "JS";
  topics := ["fallback"]
|}.

(** How a run of [initProjects] ends. *)
Inductive outcome :=
  | Thrown (message : string)
  | Resolved (repos : list repo) (st : Storage) (view : root_content).

Section Init.
Context `{!JSON} `{!Intl}.

Definition initProjects (o : options) (e : env) : option outcome :=
  match parseGithubProfile (url_pathname e) with
  | None => Some (Thrown "Invalid GitHub profile URL")
  | Some username =>
      if negb (has_root e) then Some (Thrown "projects-root element not found")
      else
        let cached := loadCache (storage e) (now_load e) in
        fetched ← try_fetch o e;
        let '(repos, st) :=
          match fetched with
          | Some merged => (merged, saveCache (storage e) (now_done e) merged)
          | None =>
              (match cached with
               | Some d => d
               | None => [fallback_record (now_done e)]
               end, storage e)
          end in
        Some (Resolved repos st (applyFilters (pinnedFirst o) (now_done e) repos (form e)))
  end.

End Init.

(** ** The option lists of the panel *)

(** The order [arr.sort()] puts strings in: by code units. *)
Definition compare_code_units (a b : string) : Z :=
  match String.compare a b with Lt => -1 | Eq => 0 | Gt => 1 end.

(** [arr.sort()] on an array of strings. *)
Definition sort_strings (l : list string) : list string :=
  Js.sort compare_code_units l.

(** [Array.from(new Set(arr))]: the first occurrence of every string, in
    order of insertion. *)
Fixpoint unique_from (seen : gset string) (l : list string) : list string :=
  match l with
  | [] => []
  | x :: rest =>
      if decide (x ∈ seen) then unique_from seen rest
      else x :: unique_from ({[x]} ∪ seen) rest
  end.

Definition unique (l : list string) : list string := unique_from ∅ l.

(** One [option] element of a select. *)
Definition option_html (v : string) : string :=
  "<option " +:+ attr "value" (escapeHtml v) +:+ ">" +:+ escapeHtml v +:+ "</option>".

(** The languages offered by [buildFilters]. *)
Definition languages_of (data : list repo) : list string :=
  sort_strings
    (unique (List.filter (fun l => negb (String.eqb l "")) (List.map language data))).

(** The topics offered by [buildFilters]. *)
Definition topics_of (data : list repo) : list string :=
  sort_strings (unique (List.flat_map topics data)).

(** What [buildFilters] assigns to the two selects. *)
Record select_markup := { language_select : string; topic_select : string }.

Definition buildFilters (data : list repo) : select_markup := {|
  language_select :=
    "<option " +:+ attr "value" "" +:+ ">All languages</option>"
      +:+ Js.join "" (List.map option_html (languages_of data));
  topic_select :=
    "<option " +:+ attr "value" "" +:+ ">All categories</option>"
      +:+ Js.join "" (List.map option_html (topics_of data))
|}.

(** ** Debouncing *)

(** The host's timers as one debounced function sees them: the pending
    time-outs, each with the time it is due and the arguments of the call it
    will make, the handle the next [setTimeout] returns, and the variable
    [t] of the closure.  [A] is the type of the arguments. *)
Record debounced (A : Type) := {
  db_handle : option nat;
  db_next : nat;
  db_pending : gmap nat (Z * A)
}.
Arguments db_handle {A}.
Arguments db_next {A}.
Arguments db_pending {A}.

Definition db_idle {A} : debounced A :=
  {| db_handle := None; db_next := 0%nat; db_pending := ∅ |}.

(** [clearTimeout(t)]: nothing happens for [undefined] or a handle that is
    no longer pending. *)
Definition clearTimeout {A} (t : option nat) (pending : gmap nat (Z * A))
  : gmap nat (Z * A) :=
  match t with
  | Some h => delete h pending
  | None => pending
  end.

(** A call of the function [debounce(fn, ms)] returns, at time [now]. *)
Definition db_call {A} (ms now : Z) (a : A) (st : debounced A) : debounced A :=
  let pending := clearTimeout (db_handle st) (db_pending st) in
  {| db_handle := Some (db_next st);
     db_next := S (db_next st);
     db_pending := <[db_next st := (now + ms, a)]> pending |}.

(** The time-outs due at time [now], earliest first (by handle among equal
    times), as the calls of [fn] they make: the time and the arguments. *)
Definition due_order {A} (x y : nat * (Z * A)) : Z :=
  if fst (snd x) =? fst (snd y) then Z.of_nat (fst x) - Z.of_nat (fst y)
  else fst (snd x) - fst (snd y).

Definition db_due {A} (now : Z) (st : debounced A) : list (nat * (Z * A)) :=
  Js.sort due_order
    (List.filter (fun e => fst (snd e) <=? now) (map_to_list (db_pending st))).

(** The host runs the time-outs that are due at [now]: the calls made, and
    the state without them. *)
Definition db_fire {A} (now : Z) (st : debounced A) : debounced A * list (Z * A) :=
  let due := db_due now st in
  ({| db_handle := db_handle st;
      db_next := db_next st;
      db_pending := List.fold_right (fun e m => delete (fst e) m) (db_pending st) due |},
   List.map snd due).

(** A run over calls given with their times, in order: before each call the
    time-outs that are due run; [db_run] returns the calls of [fn] made so
    far and the state. *)
Fixpoint db_run {A} (ms : Z) (st : debounced A) (calls : list (Z * A))
  : debounced A * list (Z * A) :=
  match calls with
  | [] => (st, [])
  | (now, a) :: rest =>
      let '(st1, fired) := db_fire now st in
      let '(st2, later) := db_run ms (db_call ms now a st1) rest in
      (st2, fired ++ later)
  end.

(** The calls of [fn] made up to time [stop], for the given calls of the
    debounced function. *)
Definition db_trace {A} (ms : Z) (calls : list (Z * A)) (stop : Z) : list (Z * A) :=
  let '(st, fired) := db_run ms db_idle calls in
  fired ++ snd (db_fire stop st).

(** ** The header: menu toggle and scroll shadow *)

(** The toggle button's [aria-expanded] attribute and the class list of the
    header element. *)
Record header_state := {
  aria_expanded : option string;
  header_classes : gset string
}.

(** [String(val)] for a boolean. *)
Definition string_of_bool (b : bool) : string := if b then "true" else "false".

(** [classList.toggle(cls, force)]. *)
Definition classList_toggle (cls : string) (force : bool) (classes : gset string)
  : gset string :=
  if force then {[cls]} ∪ classes else classes ∖ {[cls]}.

Definition setExpanded (val : bool) (h : header_state) : header_state := {|
  aria_expanded := Some (string_of_bool val);
  header_classes := classList_toggle "nav-open" val (header_classes h)
|}.

(** The events the two header scripts listen to, with what they read from
    the event and the window. *)
Inductive header_event :=
  | ToggleClick
  | NavClick (tagName : string) (innerWidth : Z)
  | Resize (innerWidth : Z)
  | Scroll (scrollY : option Z) (pageYOffset : Z).

(** [window.scrollY || window.pageYOffset]. *)
Definition scroll_position (scrollY : option Z) (pageYOffset : Z) : Z :=
  match scrollY with
  | Some 0 | None => pageYOffset
  | Some y => y
  end.

Definition onScroll (scrollY : option Z) (pageYOffset : Z) (h : header_state)
  : header_state :=
  let y := scroll_position scrollY pageYOffset in {|
    aria_expanded := aria_expanded h;
    header_classes :=
      if y >? 24 then {["scrolled"]} ∪ header_classes h
      else header_classes h ∖ {["scrolled"]}
  |}.

(** One event handled by the listeners of the two scripts. *)
Definition handle (h : header_state) (ev : header_event) : header_state :=
  match ev with
  | ToggleClick =>
      let expanded :=
        match aria_expanded h with
        | Some v => String.eqb v "true"
        | None => false
        end in
      setExpanded (negb expanded) h
  | NavClick tagName innerWidth =>
      if String.eqb tagName "A" && (innerWidth <=? 720) then setExpanded false h else h
  | Resize innerWidth =>
      if innerWidth >? 720 then setExpanded false h else h
  | Scroll scrollY pageYOffset => onScroll scrollY pageYOffset h
  end.

(** The header after a sequence of events. *)
Definition handle_all (h : header_state) (evs : list header_event) : header_state :=
  List.fold_left handle evs h.

(** ** A concrete host

    An executable [JSON] for payloads (printing without white space, as
    [JSON.stringify] does, and parsing what it prints) and a collation, used
    to run the model on concrete inputs. *)

Module MiniJson.

#[local] Unset Elimination Schemes.
Inductive json :=
  | JNull
  | JNum (z : Z)
  | JStr (s : string)
  | JArr (l : list json)
  | JObj (l : list (string * json)).
#[local] Set Elimination Schemes.

Definition is_quote (c : ascii) : bool := Ascii.eqb c "034".
Definition is_backslash (c : ascii) : bool := Ascii.eqb c "\".

Fixpoint escape (s : string) : string :=
  match s with
  | EmptyString => EmptyString
  | String c s' =>
      if is_quote c || is_backslash c then String "\" (String c (escape s'))
      else String c (escape s')
  end.

Definition quote (s : string) : string := Js.dq +:+ escape s +:+ Js.dq.

Fixpoint print (j : json) : string :=
  match j with
  | JNull => "null"
  | JNum z => Js.string_of_Z z
  | JStr s => quote s
  | JArr l => "[" +:+ Js.join "," (List.map print l) +:+ "]"
  | JObj l =>
      "{" +:+ Js.join "," (List.map (fun kv => quote (fst kv) +:+ ":" +:+ print (snd kv)) l)
          +:+ "}"
  end.

Inductive token :=
  | TLBrace | TRBrace | TLBrack | TRBrack | TComma | TColon
  | TNull
  | TNum (z : Z)
  | TStr (s : string).

(** The text of a string literal after its opening quote, and what follows it. *)
Fixpoint lex_string (s : string) : option (string * string) :=
  match s with
  | EmptyString => None
  | String c s' =>
      if is_quote c then Some (EmptyString, s')
      else if is_backslash c then
        match s' with
        | String e s'' => '(w, rest) ← lex_string s''; Some (String e w, rest)
        | EmptyString => None
        end
      else '(w, rest) ← lex_string s'; Some (String c w, rest)
  end.

Definition is_digit (c : ascii) : bool :=
  (48 <=? nat_of_ascii c)%nat && (nat_of_ascii c <=? 57)%nat.

Fixpoint span_digits (s : string) : string * string :=
  match s with
  | String c s' =>
      if is_digit c then let '(d, rest) := span_digits s' in (String c d, rest)
      else (EmptyString, s)
  | EmptyString => (EmptyString, EmptyString)
  end.

Definition lex_number (s : string) : option (Z * string) :=
  match s with
  | String c s' =>
      let '(d, rest) := if Ascii.eqb c "-" then span_digits s' else span_digits s in
      let text := if Ascii.eqb c "-" then String c d else d in
      z ← NilZero.int_of_string text;
      Some (Z.of_int z, rest)
  | EmptyString => None
  end.

Fixpoint lex (fuel : nat) (s : string) : option (list token) :=
  match fuel with
  | O => None
  | S f =>
      match s with
      | EmptyString => Some []
      | String c s' =>
          if Ascii.eqb c "{" then cons TLBrace <$> lex f s'
          else if Ascii.eqb c "}" then cons TRBrace <$> lex f s'
          else if Ascii.eqb c "[" then cons TLBrack <$> lex f s'
          else if Ascii.eqb c "]" then cons TRBrack <$> lex f s'
          else if Ascii.eqb c "," then cons TComma <$> lex f s'
          else if Ascii.eqb c ":" then cons TColon <$> lex f s'
          else if is_quote c then
            '(w, rest) ← lex_string s'; cons (TStr w) <$> lex f rest
          else if Js.startsWith "null" s then
            cons TNull <$> lex f (String.substring 4 (String.length s - 4) s)
          else
            '(z, rest) ← lex_number s; cons (TNum z) <$> lex f rest
      end
  end.

Fixpoint parse_value (fuel : nat) (toks : list token) : option (json * list token) :=
  match fuel with
  | O => None
  | S f =>
      match toks with
      | TNull :: r => Some (JNull, r)
      | TNum z :: r => Some (JNum z, r)
      | TStr s :: r => Some (JStr s, r)
      | TLBrack :: TRBrack :: r => Some (JArr [], r)
      | TLBrack :: r => '(l, r') ← parse_elems f r; Some (JArr l, r')
      | TLBrace :: TRBrace :: r => Some (JObj [], r)
      | TLBrace :: r => '(l, r') ← parse_fields f r; Some (JObj l, r')
      | _ => None
      end
  end
with parse_elems (fuel : nat) (toks : list token) : option (list json * list token) :=
  match fuel with
  | O => None
  | S f =>
      '(v, r) ← parse_value f toks;
      match r with
      | TComma :: r' => '(vs, r'') ← parse_elems f r'; Some (v :: vs, r'')
      | TRBrack :: r' => Some ([v], r')
      | _ => None
      end
  end
with parse_fields (fuel : nat) (toks : list token)
  : option (list (string * json) * list token) :=
  match fuel with
  | O => None
  | S f =>
      match toks with
      | TStr k :: TColon :: r =>
          '(v, r') ← parse_value f r;
          match r' with
          | TComma :: r'' => '(kvs, r3) ← parse_fields f r''; Some ((k, v) :: kvs, r3)
          | TRBrace :: r'' => Some ([(k, v)], r'')
          | _ => None
          end
      | _ => None
      end
  end.

Definition parse (s : string) : option json :=
  toks ← lex (S (String.length s)) s;
  '(j, rest) ← parse_value (2 * length toks + 2) toks;
  match rest with [] => Some j | _ => None end.

(** Property access on a parsed object. *)
Fixpoint field (k : string) (l : list (string * json)) : option json :=
  match l with
  | [] => None
  | (k', v) :: l' => if String.eqb k k' then Some v else field k l'
  end.

Definition opt_field {A} (k : string) (f : A -> json) (x : option A)
  : list (string * json) :=
  match x with Some a => [(k, f a)] | None => [] end.

Definition nullable {A} (f : A -> json) (x : option A) : json :=
  match x with Some a => f a | None => JNull end.

Definition repo_to_json (r : repo) : json :=
  JObj ([("name", JStr (name r)); ("description", JStr (description r))]
        ++ opt_field "html_url" JStr (html_url r)
        ++ [("homepage", nullable JStr (homepage r));
            ("stars", JNum (stars r));
            ("forks", JNum (forks r));
            ("updated", nullable JNum (updated r));
            ("language", JStr (language r));
            ("topics", JArr (List.map JStr (topics r)))]).

Definition payload_to_json (p : payload) : json :=
  JObj (opt_field "ts" JNum (ts p)
        ++ opt_field "data" (fun d => JArr (List.map repo_to_json d)) (data p)).

Definition as_str (j : option json) : option string :=
  match j with Some (JStr s) => Some s | _ => None end.

Definition as_num (j : option json) : option Z :=
  match j with Some (JNum z) => Some z | _ => None end.

Definition as_opt_str (j : option json) : option (option string) :=
  match j with
  | Some (JStr s) => Some (Some s)
  | Some JNull | None => Some None
  | _ => None
  end.

Definition as_opt_num (j : option json) : option (option Z) :=
  match j with
  | Some (JNum z) => Some (Some z)
  | Some JNull | None => Some None
  | _ => None
  end.

Definition as_strings (j : option json) : option (list string) :=
  match j with
  | Some (JArr l) => mapM (fun x => as_str (Some x)) l
  | _ => None
  end.

Definition json_to_repo (j : json) : option repo :=
  match j with
  | JObj l =>
      nm ← as_str (field "name" l);
      ds ← as_str (field "description" l);
      hu ← as_opt_str (field "html_url" l);
      hp ← as_opt_str (field "homepage" l);
      st ← as_num (field "stars" l);
      fk ← as_num (field "forks" l);
      up ← as_opt_num (field "updated" l);
      lg ← as_str (field "language" l);
      tp ← as_strings (field "topics" l);
      Some {| name := nm; description := ds; html_url := hu; homepage := hp;
              stars := st; forks := fk; updated := up; language := lg; topics := tp |}
  | _ => None
  end.

Definition json_to_payload (j : json) : option payload :=
  match j with
  | JObj l =>
      t ← as_opt_num (field "ts" l);
      d ← match field "data" l with
          | Some (JArr rs) => Some <$> mapM json_to_repo rs
          | Some JNull | None => Some None
          | _ => None
          end;
      Some {| ts := t; data := d |}
  | _ => None
  end.

Definition stringify (p : payload) : string := print (payload_to_json p).

Definition parse_payload (s : string) : option payload :=
  parse s ≫= json_to_payload.

Definition codec : JSON :=
  {| JSON_stringify := stringify; JSON_parse := parse_payload |}.

End MiniJson.

(** A collation that orders strings by their code units. *)
Definition code_unit_order : Intl :=
  {| localeCompare a b :=
       match String.compare a b with Lt => -1 | Eq => 0 | Gt => 1 end |}.

(** ** Vocabulary of the specification *)

(** The units of the relative-time format: a month is 30 days and a year
    is 12 months. *)
Inductive time_unit := Seconds | Minutes | Hours | Days | Months | Years.

Definition unit_ms (u : time_unit) : Z :=
  match u with
  | Seconds => 1000
  | Minutes => 60 * 1000
  | Hours => 60 * (60 * 1000)
  | Days => 24 * (60 * (60 * 1000))
  | Months => 30 * (24 * (60 * (60 * 1000)))
  | Years => 12 * (30 * (24 * (60 * (60 * 1000))))
  end.

Definition unit_suffix (u : time_unit) : string :=
  match u with
  | Seconds => "s"
  | Minutes => "m"
  | Hours => "h"
  | Days => "d"
  | Months => "mo"
  | Years => "y"
  end.

(** The whole number of units [u] in an age of [age] milliseconds. *)
Definition unit_value (age : Z) (u : time_unit) : Z := age / unit_ms u.

(** Characters that open or close markup: angle brackets and the double
    quote that ends an attribute value. *)
Definition markup_char (c : ascii) : bool :=
  Ascii.eqb c "<" || Ascii.eqb c ">" || Ascii.eqb c "034".

Fixpoint has_markup_char (s : string) : bool :=
  match s with
  | EmptyString => false
  | String c s' => markup_char c || has_markup_char s'
  end.

(** The record carries the name [n]. *)
Definition has_name (n : string) (r : repo) : bool := String.eqb (name r) n.

(** The first record of a list that carries the name [n], as a list of at
    most one record. *)
Definition first_named (n : string) (l : list repo) : list repo :=
  match List.find (has_name n) l with
  | Some r => [r]
  | None => []
  end.

(** A record belongs to the pinned set when some pinned record carries its
    name. *)
Definition in_pinned_set (pinned : list repo) (r : repo) : Prop :=
  In (name r) (List.map name pinned).

(** The first key of the merge-time order: 0 for a record of the pinned
    set and 1 for any other when pinned-first is enabled, and the same for
    all records when it is not. *)
Definition pinned_rank (pinnedFirst : bool) (pinned : list repo) (r : repo) : Z :=
  if pinnedFirst
  then (if List.in_dec String.string_dec (name r) (List.map name pinned) then 0 else 1)
  else 0.

(** The UTF-8 bytes of a character of the basic plane, given by its code
    point, and the text of a list of such characters. *)
Definition utf8_char (cp : Z) : list nat :=
  List.map Z.to_nat
    (if cp <? 128 then [cp]
     else if cp <? 2048 then [192 + cp / 64; 128 + cp mod 64]
     else [224 + cp / 4096; 128 + (cp / 64) mod 64; 128 + cp mod 64]).

Definition utf8 (cps : list Z) : string :=
  string_of_list_ascii (List.map ascii_of_nat (List.flat_map utf8_char cps)).

(** The marker of a truncated text as the source file has it: the three
    characters U+201A, U+00C4 and U+00B6, which is how the bytes of the
    ellipsis character U+2026 read in the Mac Roman encoding. *)
Definition marker_characters : list Z := [8218; 196; 182].

(** [a] may stand before [b] in the merge-time order: pinned rank first,
    then more stars, then the more recent time stamp, a missing time stamp
    counting as the epoch. *)
Definition comes_before (pinnedFirst : bool) (pinned : list repo) (a b : repo) : Prop :=
  pinned_rank pinnedFirst pinned a < pinned_rank pinnedFirst pinned b \/
  (pinned_rank pinnedFirst pinned a = pinned_rank pinnedFirst pinned b /\
   (stars b < stars a \/
    (stars a = stars b /\ date_ms (updated b) <= date_ms (updated a)))).

(** Case-insensitive equality of two characters. *)
Definition ci_eq (a b : ascii) : bool :=
  Ascii.eqb (Js.lower_char a) (Js.lower_char b).

(** [rest] holds of the text or of one of its suffixes. *)
Fixpoint after_any (rest : string -> bool) (s : string) : bool :=
  rest s ||
  match s with
  | String _ s' => after_any rest s'
  | EmptyString => false
  end.

(** The wildcard rule of the specification: [*] stands for any substring,
    every other character for itself up to case, and the pattern covers the
    whole name. *)
Fixpoint wildcard_match (p s : string) : bool :=
  match p with
  | EmptyString => match s with EmptyString => true | _ => false end
  | String c p' =>
      if Ascii.eqb c "*" then after_any (wildcard_match p') s
      else
        match s with
        | String x s' => ci_eq c x && wildcard_match p' s'
        | EmptyString => false
        end
  end.

(** The text starts with a star. *)
Definition head_is_star (s : string) : bool :=
  match s with
  | String c _ => Ascii.eqb c "*"
  | EmptyString => false
  end.

(** A pattern of plain characters and stars: no character with a meaning of
    its own in a regular expression, the star apart. *)
Definition plain_char (c : ascii) : bool :=
  Ascii.eqb c "*" || negb (RegExp.is_syntax_char c || negb (RegExp.is_ascii c)).

Fixpoint plain_pattern (p : string) : bool :=
  match p with
  | EmptyString => true
  | String c p' => plain_char c && plain_pattern p'
  end.

(** The text has no line terminator. *)
Fixpoint single_line (s : string) : bool :=
  match s with
  | EmptyString => true
  | String c s' => negb (RegExp.is_line_terminator c) && single_line s'
  end.

(** The atoms a pattern stands for, read off the pattern itself. *)
Fixpoint atoms_of (p : string) : option (list RegExp.atom) :=
  match p with
  | EmptyString => Some []
  | String c p' =>
      if Ascii.eqb c "*" then cons RegExp.DotStar <$> atoms_of p'
      else if Ascii.eqb c "." then cons RegExp.Dot <$> atoms_of p'
      else if RegExp.is_syntax_char c || negb (RegExp.is_ascii c) then None
      else cons (RegExp.Lit c) <$> atoms_of p'
  end.

(** [needle] occurs in [hay]. *)
Definition substring_of (needle hay : string) : Prop :=
  exists pre post, hay = pre +:+ needle +:+ post.

(** The query as the filter uses it: lower-cased, then trimmed. *)
Definition query_of (c : controls) : string :=
  Js.trim (Js.toLowerCase (search_value c)).

(** The pinned-only restriction is in force. *)
Definition pinned_only_active (pinnedFirst : bool) (c : controls) : bool :=
  pinnedFirst && pinned_only_checked c.

(** The condition a record meets to pass the filter. *)
Definition passes (pinnedFirst : bool) (repos : list repo) (c : controls) (r : repo)
  : Prop :=
  (pinned_only_active pinnedFirst c = true ->
   exists p, In p (firstn 10 repos) /\ name p = name r) /\
  substring_of (query_of c) (Js.toLowerCase (haystack r)) /\
  (language_value c = "" \/
   Js.toLowerCase (language r) = Js.toLowerCase (language_value c)) /\
  (topic_value c = "" \/
   In (Js.toLowerCase (topic_value c)) (List.map Js.toLowerCase (topics r))).

(** The same condition, as the filter computes it. *)
Definition keeps (pinnedFirst : bool) (repos : list repo) (c : controls) (r : repo)
  : bool :=
  (negb (pinned_only_active pinnedFirst c)
   || existsb (fun p => String.eqb (name p) (name r)) (firstn 10 repos))
  && Js.includes (Js.toLowerCase (haystack r)) (query_of c)
  && (String.eqb (language_value c) ""
      || String.eqb (Js.toLowerCase (language r)) (Js.toLowerCase (language_value c)))
  && (String.eqb (topic_value c) ""
      || existsb (String.eqb (Js.toLowerCase (topic_value c)))
                 (List.map Js.toLowerCase (topics r))).

(** The controls with the pinned-only toggle set to [b]. *)
Definition with_pinned_only (b : bool) (c : controls) : controls := {|
  search_value := search_value c;
  language_value := language_value c;
  topic_value := topic_value c;
  sort_value := sort_value c;
  pinned_only_checked := b
|}.

(** The run [e] with other values in the form controls. *)
Definition with_form (c : controls) (e : env) : env := {|
  url_pathname := url_pathname e;
  has_root := has_root e;
  storage := storage e;
  now_load := now_load e;
  now_done := now_done e;
  repos_reply := repos_reply e;
  pinned_reply := pinned_reply e;
  form := c
|}.

(** The values the relative-time format shows in a unit: seconds from 0,
    every other unit from 1, each below the size of the next unit. *)
Definition unit_range (u : time_unit) (v : Z) : Prop :=
  match u with
  | Seconds => 0 <= v < 60
  | Minutes => 1 <= v < 60
  | Hours => 1 <= v < 24
  | Days => 1 <= v < 30
  | Months => 1 <= v < 12
  | Years => 1 <= v
  end.

(** The text after its leading slashes. *)
Fixpoint skip_slashes (s : string) : string :=
  match s with
  | String c s' => if Ascii.eqb c "/" then skip_slashes s' else s
  | EmptyString => EmptyString
  end.

(** The text up to its first slash. *)
Fixpoint upto_slash (s : string) : string :=
  match s with
  | String c s' => if Ascii.eqb c "/" then EmptyString else String c (upto_slash s')
  | EmptyString => EmptyString
  end.

(** The number of markup characters (angle brackets and double quotes) of a
    text. *)
Fixpoint count_markup (s : string) : nat :=
  match s with
  | EmptyString => 0
  | String c s' => (if markup_char c then 1 else 0) + count_markup s'
  end.

(** The run [e] with another reply to the GraphQL request. *)
Definition with_pinned_reply (reply : option (list gql_node)) (e : env) : env := {|
  url_pathname := url_pathname e;
  has_root := has_root e;
  storage := storage e;
  now_load := now_load e;
  now_done := now_done e;
  repos_reply := repos_reply e;
  pinned_reply := reply;
  form := form e
|}.

(** A primary-listing element that the listing filter lets through. *)
Definition listed (excl : list string) (raw : raw_repo) : Prop :=
  r_fork raw = false /\ r_archived raw = false /\
  matchesPattern (r_name raw) excl = Some false.

(** The menu is in sync when the button's attribute says what the class
    list shows. *)
Definition menu_synced (h : header_state) : Prop :=
  aria_expanded h = Some (string_of_bool (bool_decide ("nav-open" ∈ header_classes h))).

(** The events that reach [setExpanded]. *)
Definition sets_menu (ev : header_event) : bool :=
  match ev with
  | ToggleClick => true
  | NavClick tagName innerWidth => String.eqb tagName "A" && (innerWidth <=? 720)
  | Resize innerWidth => innerWidth >? 720
  | Scroll _ _ => false
  end.

Definition is_scroll (ev : header_event) : bool :=
  match ev with Scroll _ _ => true | _ => false end.

(** Two header states show the same menu. *)
Definition same_menu (h h' : header_state) : Prop :=
  aria_expanded h = aria_expanded h' /\
  ("nav-open" ∈ header_classes h <-> "nav-open" ∈ header_classes h').

(** The call of [fn] a call of the debounced function leads to, if the next
    thing that happens (the next call, or the end of the observation) comes
    at time [next]: one call, [ms] after it was asked for, unless [next]
    comes before that. *)
Definition fires_before {A} (ms : Z) (call : Z * A) (next : Z) : list (Z * A) :=
  if fst call + ms <=? next then [(fst call + ms, snd call)] else [].

(** The calls of [fn] expected up to [stop]. *)
Fixpoint db_expected {A} (ms : Z) (calls : list (Z * A)) (stop : Z) : list (Z * A) :=
  match calls with
  | [] => []
  | call :: rest =>
      fires_before ms call (match rest with [] => stop | next :: _ => fst next end)
        ++ db_expected ms rest stop
  end.

(** A burst: every call comes less than [ms] after the one before. *)
Fixpoint burst {A} (ms : Z) (calls : list (Z * A)) : Prop :=
  match calls with
  | call :: rest =>
      match rest with
      | next :: _ => fst next < fst call + ms
      | [] => True
      end /\ burst ms rest
  | [] => True
  end.

(** The pending time-outs of a debounced function are none, or the one its
    variable [t] names. *)
Definition db_holds {A} (st : debounced A) (pend : option (Z * A)) : Prop :=
  match pend with
  | None => db_pending st = ∅
  | Some v => exists h, db_handle st = Some h /\ db_pending st = {[h := v]}
  end.

(** The call of [fn] a pending time-out makes if the next thing that
    happens comes at time [next]. *)
Definition pending_fires {A} (pend : option (Z * A)) (next : Z) : list (Z * A) :=
  match pend with
  | Some v => if fst v <=? next then [v] else []
  | None => []
  end.

(** The time of the next thing that happens. *)
Definition next_time {A} (calls : list (Z * A)) (stop : Z) : Z :=
  match calls with [] => stop | next :: _ => fst next end.

(** ** Sample inputs *)

Definition injected : string := "<img src=x onerror=alert(1)>".

Definition sample (nm ds lang : string) (tps : list string) (st : Z)
    (up : option timestamp) : repo := {|
  name := nm; description := ds; html_url := Some "#"; homepage := None;
  stars := st; forks := 0; updated := up; language := lang; topics := tps
|}.

Definition repo_markup_in_name : repo := sample injected "plain" "JS" [] 0 None.
Definition repo_markup_in_description : repo := sample "plain" injected "JS" [] 0 None.

(** A store that accepts reads and writes and holds nothing yet. *)
Definition empty_store : Storage :=
  {| available := true; writable := true; items := ∅ |}.

(** Controls left untouched: no query, no selection, the merge-time order. *)
Definition idle_controls : controls := {|
  search_value := ""; language_value := ""; topic_value := "";
  sort_value := "pinned"; pinned_only_checked := false
|}.

Definition default_options : options := {|
  profileUrl := "https://github.com/octocat";
  exclude := [];
  pinnedFirst := true;
  perPage := 100;
  githubToken := None
|}.

Definition cached_sample : repo := sample "gallery" "Cached earlier" "JS" ["web"] 7 (Some 500).

(** The store after an earlier run cached [cached_sample] at time 1000. *)
Definition store_written_at_1000 : Storage :=
  @saveCache MiniJson.codec empty_store 1000 [cached_sample].

(** A run whose primary request fails at time [now], over that store. *)
Definition failing_run (now : Z) : env := {|
  url_pathname := Some "/octocat";
  has_root := true;
  storage := store_written_at_1000;
  now_load := now;
  now_done := now + 250;
  repos_reply := None;
  pinned_reply := None;
  form := idle_controls
|}.

Definition foo : repo := sample "foo" "" "Go" ["cli"] 0 None.
Definition bar : repo := sample "bar" "" "Rust" ["web"] 0 None.

Definition search_for (query lang : string) : controls := {|
  search_value := query; language_value := lang; topic_value := "";
  sort_value := "pinned"; pinned_only_checked := false
|}.

(** Eleven records named 1 to 11. *)
Definition eleven : list repo :=
  List.map (fun i => sample (Js.string_of_Z i) "" "JS" [] 0 None)
           [1; 2; 3; 4; 5; 6; 7; 8; 9; 10; 11].

Definition eleventh : repo := sample "11" "" "JS" [] 0 None.

(** A primary-listing element and a pinned node that carry only a name. *)
Definition raw_named (nm : string) : raw_repo := {|
  r_name := nm; r_description := None; r_html_url := Some "#"; r_url := None;
  r_homepage := None; r_homepageUrl := None;
  r_stargazers_count := Some 1; r_forks_count := Some 0;
  r_pushed_at := Some 500; r_updated_at := None;
  r_language := Some "JS"; r_primaryLanguage := None;
  r_topics := Some []; r_repository_topics := None;
  r_fork := false; r_archived := false
|}.

Definition node_named (nm : string) : gql_node := {|
  n_name := nm; n_url := Some "#"; n_description := None;
  n_stargazerCount := Some 2; n_forks_totalCount := None;
  n_pushedAt := Some 600; n_primaryLanguage := Some "JS";
  n_repositoryTopics := None; n_homepageUrl := None
|}.

(** Options that exclude the drafts, with a token so that pins are fetched. *)
Definition draft_options : options := {|
  profileUrl := "https://github.com/octocat";
  exclude := ["draft-*"];
  pinnedFirst := true;
  perPage := 100;
  githubToken := Some "token"
|}.

(** A run in which the listing holds two drafts and another repository, and
    one of the drafts is pinned. *)
Definition draft_run : env := {|
  url_pathname := Some "/octocat";
  has_root := true;
  storage := empty_store;
  now_load := 1000;
  now_done := 1250;
  repos_reply := Some [raw_named "Draft-a"; raw_named "draft-p"; raw_named "site"];
  pinned_reply := Some [node_named "draft-p"];
  form := idle_controls
|}.

(** The records of the ordering example: A and B have 10 stars, B is the
    more recent, and C has 5 stars. *)
Definition rec_A : repo := sample "A" "" "JS" [] 10 (Some 1000).
Definition rec_B : repo := sample "B" "" "JS" [] 10 (Some 2000).
Definition rec_C : repo := sample "C" "" "JS" [] 5 None.

(** A pinned copy and a listing copy of the same repository, and another one. *)
Definition pinned_copy : repo := sample "site" "pinned copy" "JS" [] 3 (Some 900).
Definition listing_copy : repo := sample "site" "listing copy" "JS" [] 3 (Some 900).
Definition other_repo : repo := sample "tool" "" "Go" [] 1 (Some 800).

(** A description of 130 characters. *)
Definition long_description : string :=
  Js.join "" (List.repeat "0123456789" 13).

(** Options with pinned-first disabled. *)
Definition unpinned_options : options := {|
  profileUrl := "https://github.com/octocat";
  exclude := [];
  pinnedFirst := false;
  perPage := 100;
  githubToken := None
|}.

(** Options that exclude every name starting with pro. *)
Definition pro_options : options := {|
  profileUrl := "https://github.com/octocat";
  exclude := ["pro*"];
  pinnedFirst := true;
  perPage := 100;
  githubToken := None
|}.

(** A run without network and without a cache entry. *)
Definition offline_run : env := {|
  url_pathname := Some "/octocat";
  has_root := true;
  storage := empty_store;
  now_load := 1000;
  now_done := 1250;
  repos_reply := None;
  pinned_reply := None;
  form := idle_controls
|}.

(** A name that spans two lines. *)
Definition two_line_name : string := "a" +:+ Js.nl +:+ "b".

(** A record whose name ends, and whose description starts, with a part of
    the word ob. *)
Definition fo_bar : repo := sample "fo" "bar" "JS" [] 0 None.

(** A primary-listing element of which only the name is known. *)
Definition bare_raw (nm : string) : raw_repo := {|
  r_name := nm; r_description := None; r_html_url := None; r_url := None;
  r_homepage := None; r_homepageUrl := None;
  r_stargazers_count := None; r_forks_count := None;
  r_pushed_at := None; r_updated_at := None;
  r_language := None; r_primaryLanguage := None;
  r_topics := None; r_repository_topics := None;
  r_fork := false; r_archived := false
|}.

(** A store that refuses writes. *)
Definition full_store : Storage :=
  {| available := true; writable := false; items := ∅ |}.

(** The record set of the run [draft_run]. *)
Definition draft_repos : list repo :=
  match @initProjects MiniJson.codec code_unit_order draft_options draft_run with
  | Some (Resolved repos _ _) => repos
  | _ => []
  end.

(** A run in which the pinned repository has fewer stars than a listed
    one. *)
Definition popular_raw : raw_repo := {|
  r_name := "popular"; r_description := None; r_html_url := Some "#"; r_url := None;
  r_homepage := None; r_homepageUrl := None;
  r_stargazers_count := Some 50; r_forks_count := Some 0;
  r_pushed_at := Some 500; r_updated_at := None;
  r_language := Some "JS"; r_primaryLanguage := None;
  r_topics := Some []; r_repository_topics := None;
  r_fork := false; r_archived := false
|}.

Definition pinned_low_run : env := {|
  url_pathname := Some "/octocat";
  has_root := true;
  storage := empty_store;
  now_load := 1000;
  now_done := 1250;
  repos_reply := Some [raw_named "site"; popular_raw];
  pinned_reply := Some [node_named "pin"];
  form := idle_controls
|}.

Definition pinned_low_repos : list repo :=
  match @initProjects MiniJson.codec code_unit_order draft_options pinned_low_run with
  | Some (Resolved repos _ _) => repos
  | _ => []
  end.

(** A later run without network, over the store the run [draft_run] left. *)
Definition run_after_draft (now : Z) : env := {|
  url_pathname := Some "/octocat";
  has_root := true;
  storage := @saveCache MiniJson.codec empty_store 1250 draft_repos;
  now_load := now;
  now_done := now + 250;
  repos_reply := None;
  pinned_reply := None;
  form := idle_controls
|}.

(** * Properties *)

(** ** The primitives on sample values *)

Example string_of_Z_45 : Js.string_of_Z 45 = "45".
Proof. reflexivity. Qed.

Example trim_ex : Js.trim "  a b  " = "a b".
Proof. reflexivity. Qed.

Example split_ex : Js.split "/" "/octo/cat" = [""; "octo"; "cat"].
Proof. reflexivity. Qed.

Example slice_ex : Js.slice "abcdef" 0 (-1) = "abcde".
Proof. reflexivity. Qed.

Example join_ex : Js.join " " ["a"; "b"; "c"] = "a b c".
Proof. reflexivity. Qed.

Example matchesPattern_draft : matchesPattern "Draft-notes" ["old"; "draft-*"] = Some true.
Proof. reflexivity. Qed.

Example matchesPattern_anchored : matchesPattern "my-draft-notes" ["draft-*"] = Some false.
Proof. reflexivity. Qed.

Example matchesPattern_outside : matchesPattern "x" ["a+b"] = None.
Proof. reflexivity. Qed.

(** ** Strings *)

Lemma str_or_empty (s : string) : Js.str_or s "" = s.
Proof. now destruct s. Qed.

Lemma length_substring_0 (n : nat) (s : string) :
  String.length (String.substring 0 n s) = Nat.min n (String.length s).
Proof.
  revert s; induction n as [|n IH]; intros [|c s]; cbn; try reflexivity.
  now rewrite IH.
Qed.

Lemma substring_0_prefix (n : nat) (s : string) :
  exists rest, s = String.substring 0 n s +:+ rest.
Proof.
  revert s; induction n as [|n IH]; intros s.
  - exists s. now destruct s.
  - destruct s as [|c s]; [now exists ""|].
    destruct (IH s) as [rest Hrest]. exists rest. cbn. now rewrite <- Hrest.
Qed.

Lemma startsWith_spec (needle hay : string) :
  Js.startsWith needle hay = true <-> exists post, hay = needle +:+ post.
Proof.
  revert hay; induction needle as [|a n IH]; intros hay; cbn.
  - split; [intros _; now exists hay | reflexivity].
  - destruct hay as [|b h].
    + split; [discriminate | intros [post H]; discriminate].
    + rewrite andb_true_iff, IH. split.
      * intros [Hab [post ->]]. apply Ascii.eqb_eq in Hab as ->. now exists post.
      * intros [post H]. injection H as -> ->. split; [apply Ascii.eqb_refl | now exists post].
Qed.

(** [includes] decides the substring relation. *)
Lemma includes_spec (hay needle : string) :
  Js.includes hay needle = true <-> exists pre post, hay = pre +:+ needle +:+ post.
Proof.
  induction hay as [|c h IH]; cbn.
  - rewrite orb_false_r, startsWith_spec. split.
    + intros [post H]. now exists "", post.
    + intros [pre [post H]]. destruct pre; [now exists post | discriminate].
  - rewrite orb_true_iff, startsWith_spec, IH. split.
    + intros [[post H] | [pre [post H]]].
      * now exists "", post.
      * exists (String c pre), post. cbn. now rewrite H.
    + intros [pre [post H]]. destruct pre as [|x pre].
      * left. now exists post.
      * right. injection H as _ H. now exists pre, post.
Qed.

(** ** Relative time *)

Ltac div_lia := Z.div_mod_to_equations; lia.

Lemma unit_value_ge_1 (age : Z) (u : time_unit) :
  1 <= unit_value age u <-> unit_ms u <= age.
Proof.
  unfold unit_value. destruct u; cbn [unit_ms]; split; intros H; div_lia.
Qed.

Ltac split_ltb :=
  repeat match goal with
  | |- context [?a <? ?b] => destruct (Z.ltb_spec a b); cbv iota
  end.

Lemma relativeTime_unit (now then_ : Z) (u : time_unit) :
  1 <= unit_value (now - then_) u ->
  (forall u', 1 <= unit_value (now - then_) u' -> unit_ms u' <= unit_ms u) ->
  relativeTime now (Some then_)
  = Js.string_of_Z (unit_value (now - then_) u) +:+ unit_suffix u.
Proof.
  intros Hlo Hmax. apply unit_value_ge_1 in Hlo.
  assert (Hhi : forall u', unit_ms u' <= now - then_ -> unit_ms u' <= unit_ms u)
    by (intros u' Hu'; apply Hmax; now apply unit_value_ge_1).
  clear Hmax. unfold relativeTime, unit_value. cbv zeta.
  set (d := now - then_) in *.
  pose proof (Hhi Minutes) as Hm. pose proof (Hhi Hours) as Hh.
  pose proof (Hhi Days) as Hd. pose proof (Hhi Months) as Hmo.
  pose proof (Hhi Years) as Hy. clear Hhi.
  destruct u; cbn [unit_ms unit_suffix] in *; split_ltb;
    try (exfalso; div_lia); do 2 f_equal; div_lia.
Qed.

Lemma relativeTime_age (now age : Z) :
  relativeTime now (Some (now - age)) = relativeTime age (Some 0).
Proof.
  unfold relativeTime. replace (now - (now - age)) with age by lia.
  now replace (age - 0) with age by lia.
Qed.

(** C8: the relative-time formatter shows an age in the largest unit, among
    seconds, minutes, hours, days, months of 30 days and years of 12 months,
    whose whole value is at least 1; an age of 45 seconds is shown as 45s,
    90 minutes as 1h, 400 days as 1y and 800 days as 2y. *)
Theorem relativeTime_largest_unit :
  (forall (now then_ : Z) (u : time_unit),
      1 <= unit_value (now - then_) u ->
      (forall u', 1 <= unit_value (now - then_) u' -> unit_ms u' <= unit_ms u) ->
      relativeTime now (Some then_)
      = Js.string_of_Z (unit_value (now - then_) u) +:+ unit_suffix u) /\
  (forall now, relativeTime now (Some (now - 45 * unit_ms Seconds)) = "45s") /\
  (forall now, relativeTime now (Some (now - 90 * unit_ms Minutes)) = "1h") /\
  (forall now, relativeTime now (Some (now - 400 * unit_ms Days)) = "1y") /\
  (forall now, relativeTime now (Some (now - 800 * unit_ms Days)) = "2y").
Proof.
  split; [exact relativeTime_unit|].
  repeat split; intros now; rewrite relativeTime_age; reflexivity.
Qed.

(** ** Truncation *)

Lemma slice_prefix (s : string) (n : nat) :
  (n <= String.length s)%nat ->
  Js.slice s 0 (Z.of_nat n) = String.substring 0 n s.
Proof.
  intros Hn. unfold Js.slice, Js.clamp_index.
  destruct (Z.ltb_spec 0 0) as [?|_]; [lia|].
  destruct (Z.ltb_spec (Z.of_nat n) 0) as [?|_]; [lia|].
  rewrite Z.min_l by lia. rewrite Z.min_l by lia.
  rewrite Z.sub_0_r, Z.max_l by lia. now rewrite Nat2Z.id.
Qed.

Lemma append_marker_differs (s : string) : s +:+ ellipsis <> s.
Proof.
  induction s as [|c s IH]; simpl; [discriminate|].
  intros H. injection H as H. now apply IH.
Qed.

Lemma truncate_long (s : string) :
  (120 < String.length s)%nat ->
  truncate s 120 = String.substring 0 119 s +:+ ellipsis.
Proof.
  intros Hlen. unfold truncate. destruct s as [|c s]; [simpl in Hlen; lia|].
  destruct (Z.gtb_spec (Z.of_nat (String.length (String c s))) 120) as [_|?]; [|lia].
  change (120 - 1) with (Z.of_nat 119). rewrite slice_prefix by lia. reflexivity.
Qed.

Lemma truncate_short (s : string) :
  (String.length s <= 120)%nat -> truncate s 120 = s.
Proof.
  intros Hlen. unfold truncate. destruct s as [|c s]; [reflexivity|].
  destruct (Z.gtb_spec (Z.of_nat (String.length (String c s))) 120) as [?|_]; [lia|].
  reflexivity.
Qed.

(** C9: a description longer than 120 characters is shown as its first 119
    characters followed by the ellipsis marker (so a description of 130
    characters is shown as 119 characters and the marker); a description of
    at most 120 characters is shown unchanged; the card's description
    paragraph holds the escaped text of that truncation.  The marker is the
    text of the source file, the three characters U+201A, U+00C4 and U+00B6
    (the ellipsis character as a mis-decoded file shows it); it is not
    empty, so a truncated description differs from its first 119
    characters. *)
Theorem truncate_description (d : string) :
  (ellipsis = utf8 marker_characters /\ ellipsis <> "" /\
   ((120 < String.length d)%nat -> truncate d 120 <> String.substring 0 119 d)) /\
  ((120 < String.length d)%nat ->
     truncate d 120 = String.substring 0 119 d +:+ ellipsis /\
     String.length (String.substring 0 119 d) = 119%nat /\
     exists rest, d = String.substring 0 119 d +:+ rest) /\
  (String.length d = 130%nat ->
     truncate d 120 = String.substring 0 119 d +:+ ellipsis /\
     String.length (String.substring 0 119 d) = 119%nat) /\
  ((String.length d <= 120)%nat -> truncate d 120 = d) /\
  (forall now r, description r = d ->
     In (desc_line r) (card_lines now r) /\
     card_innerHTML (buildCard now r) = Js.join Js.nl (card_lines now r) /\
     desc_line r
     = "      <p " +:+ attr "class" "project-desc" +:+ " "
         +:+ attr "title" (escapeHtml d) +:+ ">"
         +:+ escapeHtml (truncate d 120) +:+ "</p>").
Proof.
  split; [split; [reflexivity | split; [discriminate|]]|].
  { intros Hlen. rewrite (truncate_long d Hlen). apply append_marker_differs. }
  repeat split.
  - now apply truncate_long.
  - rewrite length_substring_0. lia.
  - apply substring_0_prefix.
  - apply truncate_long. lia.
  - rewrite length_substring_0. lia.
  - apply truncate_short.
  - unfold card_lines. simpl. tauto.
  - unfold desc_line. subst d. now rewrite str_or_empty.
Qed.

(** ** Escaping *)

Lemma has_markup_char_app (a b : string) :
  has_markup_char (a +:+ b) = has_markup_char a || has_markup_char b.
Proof.
  induction a as [|c a IH]; simpl; [reflexivity|]. now rewrite IH, orb_assoc.
Qed.

Lemma escapeHtml_cons (c : ascii) (s : string) :
  escapeHtml (String c s)
  = (if Ascii.eqb c "&" then "&amp;"
     else if Ascii.eqb c "<" then "&lt;"
     else if Ascii.eqb c ">" then "&gt;"
     else if Ascii.eqb c "034" then "&quot;"
     else String c "") +:+ escapeHtml s.
Proof.
  unfold escapeHtml. simpl.
  destruct (Ascii.eqb_spec c "&") as [->|H1]; [reflexivity|]. simpl.
  destruct (Ascii.eqb_spec c "<") as [->|H2]; [reflexivity|]. simpl.
  destruct (Ascii.eqb_spec c ">") as [->|H3]; [reflexivity|]. simpl.
  destruct (Ascii.eqb_spec c "034") as [->|H4]; reflexivity.
Qed.

(** The output of [escapeHtml] has no angle bracket and no double quote. *)
Lemma escapeHtml_no_markup (s : string) : has_markup_char (escapeHtml s) = false.
Proof.
  induction s as [|c s IH]; [reflexivity|].
  rewrite escapeHtml_cons, has_markup_char_app, IH, orb_false_r.
  destruct (Ascii.eqb_spec c "&"); [reflexivity|].
  destruct (Ascii.eqb_spec c "<"); [reflexivity|].
  destruct (Ascii.eqb_spec c ">"); [reflexivity|].
  destruct (Ascii.eqb_spec c "034"); [reflexivity|].
  simpl. unfold markup_char.
  repeat match goal with
  | H : ?x <> ?y |- context [Ascii.eqb ?x ?y] =>
      destruct (Ascii.eqb_spec x y); [contradiction|]
  end. reflexivity.
Qed.

(** C3: the card markup escapes the description (and the language), but the
    record's name is interpolated into the title as it is: a name that holds
    markup reaches [innerHTML] unescaped, while the same text in the
    description arrives escaped. *)
Theorem buildCard_name_not_escaped :
  has_markup_char injected = true /\
  In (title_line repo_markup_in_name) (card_lines 0 repo_markup_in_name) /\
  title_line repo_markup_in_name
  = "        <h3 " +:+ attr "class" "project-title" +:+ ">" +:+ injected +:+ "</h3>" /\
  Js.includes (card_innerHTML (buildCard 0 repo_markup_in_name)) injected = true /\
  Js.includes (card_innerHTML (buildCard 0 repo_markup_in_description)) injected = false /\
  Js.includes (card_innerHTML (buildCard 0 repo_markup_in_description))
              (escapeHtml injected) = true.
Proof.
  repeat split; try reflexivity. simpl. tauto.
Qed.

(** ** Deduplication *)

Lemma has_name_true (n : string) (r : repo) : has_name n r = true <-> name r = n.
Proof. unfold has_name. apply String.eqb_eq. Qed.

Lemma has_name_false (n : string) (r : repo) : has_name n r = false <-> name r <> n.
Proof. unfold has_name. apply String.eqb_neq. Qed.

Lemma dedupe_from_In (seen : gset string) (l : list repo) (r : repo) :
  In r (dedupe_from seen l) -> In r l /\ name r ∉ seen.
Proof.
  revert seen; induction l as [|x l IH]; intros seen; simpl; [tauto|].
  destruct (decide (name x ∈ seen)) as [Hx|Hx].
  - intros H. apply IH in H. tauto.
  - intros [<-|H]; [tauto|]. apply IH in H. destruct H as [H1 H2].
    split; [tauto|]. intros Hs. apply H2, elem_of_union. now right.
Qed.

Lemma dedupe_from_sublist (seen : gset string) (l : list repo) :
  sublist (dedupe_from seen l) l.
Proof.
  revert seen; induction l as [|x l IH]; intros seen; simpl; [constructor|].
  destruct (decide (name x ∈ seen)); [apply sublist_cons | apply sublist_skip]; apply IH.
Qed.

Lemma dedupe_from_NoDup (seen : gset string) (l : list repo) :
  NoDup (List.map name (dedupe_from seen l)).
Proof.
  revert seen; induction l as [|x l IH]; intros seen; simpl; [constructor|].
  destruct (decide (name x ∈ seen)) as [Hx|Hx]; [apply IH|].
  simpl. apply NoDup_cons_2; [|apply IH].
  rewrite list_elem_of_In, in_map_iff. intros [r [Hname Hin]].
  apply dedupe_from_In in Hin as [_ Hseen]. set_solver.
Qed.

(** Of the records that carry a given name, the one that survives is the
    first in the input, unless the name was seen before. *)
Lemma dedupe_from_filter (seen : gset string) (l : list repo) (n : string) :
  List.filter (has_name n) (dedupe_from seen l)
  = if decide (n ∈ seen) then [] else first_named n l.
Proof.
  unfold first_named.
  revert seen; induction l as [|x l IH]; intros seen; simpl.
  - now destruct (decide (n ∈ seen)).
  - destruct (decide (name x ∈ seen)) as [Hx|Hx].
    + rewrite IH. destruct (decide (n ∈ seen)) as [Hn|Hn]; [reflexivity|].
      destruct (has_name n x) eqn:E; [|reflexivity].
      apply has_name_true in E. congruence.
    + simpl. rewrite IH. destruct (has_name n x) eqn:E.
      * apply has_name_true in E. subst n.
        destruct (decide (name x ∈ {[name x]} ∪ seen)) as [_|H]; [|set_solver].
        now destruct (decide (name x ∈ seen)).
      * apply has_name_false in E.
        destruct (decide (n ∈ {[name x]} ∪ seen)) as [H|H];
          destruct (decide (n ∈ seen)) as [H'|H']; try reflexivity; exfalso.
        -- apply elem_of_union in H. destruct H as [H|H]; [|contradiction].
           apply elem_of_singleton in H. congruence.
        -- apply H, elem_of_union. now right.
Qed.

Lemma dedupe_from_distinct (seen : gset string) (l : list repo) :
  NoDup (List.map name l) ->
  (forall r, In r l -> name r ∉ seen) ->
  dedupe_from seen l = l.
Proof.
  revert seen; induction l as [|x l IH]; intros seen Hnd Hseen; simpl; [reflexivity|].
  simpl in Hnd. apply NoDup_cons in Hnd as [Hx Hnd].
  destruct (decide (name x ∈ seen)) as [H|_].
  - exfalso. apply (Hseen x); simpl; tauto.
  - f_equal. apply IH; [assumption|]. intros r Hr.
    assert (name r <> name x).
    { intros E. apply Hx. rewrite <- E, list_elem_of_In. now apply in_map. }
    specialize (Hseen r (or_intror Hr)). intros Hu.
    apply elem_of_union in Hu. destruct Hu as [Hu|Hu]; [|contradiction].
    apply elem_of_singleton in Hu. contradiction.
Qed.

Lemma find_app_first {A} (f : A -> bool) (l1 l2 : list A) (x : A) :
  List.find f l1 = Some x -> List.find f (l1 ++ l2) = Some x.
Proof.
  induction l1 as [|y l1 IH]; simpl; [discriminate|]. now destruct (f y).
Qed.

(** C4: deduplicating the concatenation of the pinned records and the
    primary-listing records leaves, for every name, exactly the first record
    of the concatenation that carries it; a pinned record therefore wins over
    a primary record of the same name; the survivors keep their relative
    order, and a concatenation whose names are all distinct is unchanged. *)
Theorem dedupeByName_keeps_first (pinned mapped : list repo) :
  (forall n, List.filter (has_name n) (dedupeByName (pinned ++ mapped))
             = first_named n (pinned ++ mapped)) /\
  NoDup (List.map name (dedupeByName (pinned ++ mapped))) /\
  (forall n p, List.find (has_name n) pinned = Some p ->
               List.filter (has_name n) (dedupeByName (pinned ++ mapped)) = [p]) /\
  sublist (dedupeByName (pinned ++ mapped)) (pinned ++ mapped) /\
  (NoDup (List.map name (pinned ++ mapped)) ->
   dedupeByName (pinned ++ mapped) = pinned ++ mapped).
Proof.
  unfold dedupeByName. repeat split.
  - intros n. rewrite dedupe_from_filter.
    destruct (decide (n ∈ (∅ : gset string))) as [H|_]; [set_solver|reflexivity].
  - apply dedupe_from_NoDup.
  - intros n p Hp. rewrite dedupe_from_filter.
    destruct (decide (n ∈ (∅ : gset string))) as [H|_]; [set_solver|].
    unfold first_named. now rewrite (find_app_first _ _ _ _ Hp).
  - apply dedupe_from_sublist.
  - intros Hnd. apply dedupe_from_distinct; [assumption|]. intros r _. set_solver.
Qed.

(** ** Sorting *)

Section SortFacts.
Context {A : Type} (cmp : A -> A -> Z).

Lemma insert_sorted_perm (x : A) (l : list A) :
  Permutation (Js.insert_sorted cmp x l) (x :: l).
Proof.
  induction l as [|y l IH]; simpl; [apply Permutation_refl|].
  destruct (cmp x y <=? 0); [apply Permutation_refl|].
  eapply perm_trans; [apply perm_skip, IH | apply perm_swap].
Qed.

Lemma sort_perm (l : list A) : Permutation (Js.sort cmp l) l.
Proof.
  induction l as [|x l IH]; simpl; [apply perm_nil|].
  eapply perm_trans; [apply insert_sorted_perm | now apply perm_skip].
Qed.

Lemma sort_In (l : list A) (x : A) : In x (Js.sort cmp l) <-> In x l.
Proof.
  split; apply Permutation_in; [|apply Permutation_sym]; apply sort_perm.
Qed.

Lemma insert_sorted_sorted (x : A) (l : list A) :
  (forall a b, 0 < cmp a b -> cmp b a <= 0) ->
  (forall a b c, cmp a b <= 0 -> cmp b c <= 0 -> cmp a c <= 0) ->
  StronglySorted (fun a b => cmp a b <= 0) l ->
  StronglySorted (fun a b => cmp a b <= 0) (Js.insert_sorted cmp x l).
Proof.
  intros Htot Htrans. induction l as [|y l IH]; intros Hs; simpl.
  - repeat constructor.
  - apply StronglySorted_inv in Hs as [Hs Hy].
    destruct (Z.leb_spec (cmp x y) 0) as [Hle|Hgt].
    + constructor; [now constructor|]. constructor; [assumption|].
      eapply List.Forall_impl; [|exact Hy]. intros z Hz. now apply (Htrans x y z).
    + constructor; [now apply IH|].
      eapply Permutation_Forall; [apply Permutation_sym, insert_sorted_perm|].
      constructor; [now apply Htot | assumption].
Qed.

Lemma sort_sorted (l : list A) :
  (forall a b, 0 < cmp a b -> cmp b a <= 0) ->
  (forall a b c, cmp a b <= 0 -> cmp b c <= 0 -> cmp a c <= 0) ->
  StronglySorted (fun a b => cmp a b <= 0) (Js.sort cmp l).
Proof.
  intros Htot Htrans. induction l as [|x l IH]; simpl; [constructor|].
  now apply insert_sorted_sorted.
Qed.

End SortFacts.

Lemma StronglySorted_before {A} (R : A -> A -> Prop) (l1 l2 l3 : list A) (a b : A) :
  StronglySorted R (l1 ++ a :: l2 ++ b :: l3) -> R a b.
Proof.
  induction l1 as [|x l1 IH]; simpl; intros Hs; apply StronglySorted_inv in Hs as [Hs Ha].
  - rewrite List.Forall_forall in Ha. apply Ha, in_elt.
  - now apply IH.
Qed.

Lemma is_pinned_spec (pinned : list repo) (r : repo) :
  is_pinned pinned r = true <-> in_pinned_set pinned r.
Proof.
  unfold is_pinned, in_pinned_set. rewrite existsb_exists, in_map_iff.
  split; intros [p [H1 H2]]; exists p.
  - apply String.eqb_eq in H2. tauto.
  - split; [assumption|]. now apply String.eqb_eq.
Qed.

Lemma pinned_rank_is_pinned (pf : bool) (pinned : list repo) (r : repo) :
  pinned_rank pf pinned r = if pf then (if is_pinned pinned r then 0 else 1) else 0.
Proof.
  unfold pinned_rank. destruct pf; [|reflexivity].
  pose proof (is_pinned_spec pinned r) as Hspec. unfold in_pinned_set in Hspec.
  destruct (List.in_dec String.string_dec (name r) (List.map name pinned)) as [Hin|Hout],
           (is_pinned pinned r); try reflexivity.
  - apply Hspec in Hin. discriminate.
  - exfalso. apply Hout, Hspec. reflexivity.
Qed.

Lemma merge_cmp_le (pf : bool) (pinned : list repo) (a b : repo) :
  merge_cmp pf pinned a b <= 0 <-> comes_before pf pinned a b.
Proof.
  unfold merge_cmp, comes_before. rewrite !pinned_rank_is_pinned.
  destruct pf, (is_pinned pinned a), (is_pinned pinned b); simpl;
    destruct (Z.eqb_spec (stars b) (stars a)); simpl; lia.
Qed.

Lemma merge_cmp_total (pf : bool) (pinned : list repo) (a b : repo) :
  0 < merge_cmp pf pinned a b -> merge_cmp pf pinned b a <= 0.
Proof.
  unfold merge_cmp.
  destruct pf, (is_pinned pinned a), (is_pinned pinned b); simpl;
    destruct (Z.eqb_spec (stars b) (stars a)), (Z.eqb_spec (stars a) (stars b));
    simpl; lia.
Qed.

Lemma merge_cmp_trans (pf : bool) (pinned : list repo) (a b c : repo) :
  merge_cmp pf pinned a b <= 0 -> merge_cmp pf pinned b c <= 0 ->
  merge_cmp pf pinned a c <= 0.
Proof.
  rewrite !merge_cmp_le. unfold comes_before. lia.
Qed.

Lemma merge_sort_sorted (pf : bool) (pinned l : list repo) :
  StronglySorted (comes_before pf pinned) (Js.sort (merge_cmp pf pinned) l).
Proof.
  eapply StronglySorted_ind with
    (P := fun l => StronglySorted (comes_before pf pinned) l);
    [constructor | |
     apply (sort_sorted (merge_cmp pf pinned) l);
       [apply merge_cmp_total | apply merge_cmp_trans]].
  intros a l' _ IH Hall. constructor; [exact IH|].
  eapply List.Forall_impl; [|exact Hall]. intros b Hb. now apply merge_cmp_le.
Qed.

Lemma sorted_pinned_first (pinned l l1 l2 l3 : list repo) (a b : repo) :
  Js.sort (merge_cmp true pinned) l = l1 ++ a :: l2 ++ b :: l3 ->
  in_pinned_set pinned b -> in_pinned_set pinned a.
Proof.
  intros Hsort Hb. pose proof (merge_sort_sorted true pinned l) as Hs.
  rewrite Hsort in Hs. apply StronglySorted_before in Hs.
  unfold comes_before in Hs. rewrite !pinned_rank_is_pinned in Hs.
  apply is_pinned_spec in Hb. rewrite Hb in Hs. apply is_pinned_spec.
  destruct (is_pinned pinned a); [reflexivity | lia].
Qed.

(** Decide one comparison of the merge-time sort from the facts at hand. *)
Ltac decide_merge_cmp :=
  match goal with
  | |- context [merge_cmp ?pf ?pinned ?x ?y <=? 0] =>
      let H := fresh "Hcmp" in
      destruct (Z.leb_spec (merge_cmp pf pinned x y) 0) as [H|H];
      [ apply merge_cmp_le in H
      | apply Z.lt_nge in H; rewrite merge_cmp_le in H ];
      unfold comes_before in H;
      repeat match goal with
      | E : stars _ = _ |- _ => rewrite E in H
      | E : updated _ = _ |- _ => rewrite E in H
      end;
      cbn [date_ms] in H; try (exfalso; lia)
  end.

(** C5: the merge-time sort returns its input reordered so that every
    record stands before the records that follow it by pinned rank first
    (when pinned-first is enabled), then by more stars, then by the more
    recent time stamp.  The pinned rank is membership in the pinned set: with
    pinned-first enabled no record outside the pinned set stands before a
    record whose name a pinned record carries.  Within equal rank and stars
    a record without a time stamp is never placed before a record with a
    time stamp after the epoch, and of two such records the one without
    time stamp comes out last; and records A (10 stars, updated t1), B (10
    stars, updated t2 > t1) and C (5 stars) of equal pinned rank come out as
    B, A, C from any input order, whether pinned-first is enabled or not. *)
Theorem merge_sort_order (pf : bool) (pinned : list repo) :
  (forall l,
      Permutation (Js.sort (merge_cmp pf pinned) l) l /\
      StronglySorted (comes_before pf pinned) (Js.sort (merge_cmp pf pinned) l)) /\
  (forall l l1 l2 l3 a b,
      pf = true ->
      Js.sort (merge_cmp pf pinned) l = l1 ++ a :: l2 ++ b :: l3 ->
      in_pinned_set pinned b -> in_pinned_set pinned a) /\
  (forall l l1 l2 l3 a b t,
      Js.sort (merge_cmp pf pinned) l = l1 ++ a :: l2 ++ b :: l3 ->
      pinned_rank pf pinned a = pinned_rank pf pinned b ->
      stars a = stars b ->
      updated a = None -> updated b = Some t -> t <= 0) /\
  (forall a b t,
      pinned_rank pf pinned a = pinned_rank pf pinned b ->
      stars a = stars b ->
      updated a = None -> updated b = Some t -> 0 < t ->
      Js.sort (merge_cmp pf pinned) [a; b] = [b; a] /\
      Js.sort (merge_cmp pf pinned) [b; a] = [b; a]) /\
  (forall A B C t1 t2,
      stars A = 10 -> updated A = Some t1 ->
      stars B = 10 -> updated B = Some t2 ->
      t1 < t2 ->
      stars C = 5 ->
      pinned_rank pf pinned A = pinned_rank pf pinned B ->
      pinned_rank pf pinned B = pinned_rank pf pinned C ->
      forall l,
        In l [[A; B; C]; [A; C; B]; [B; A; C]; [B; C; A]; [C; A; B]; [C; B; A]] ->
        Js.sort (merge_cmp pf pinned) l = [B; A; C]).
Proof.
  split; [|split; [|split; [|split]]].
  - intros l. split; [apply sort_perm | apply merge_sort_sorted].
  - intros l l1 l2 l3 a b -> Hsort Hb. exact (sorted_pinned_first _ _ _ _ _ _ _ Hsort Hb).
  - intros l l1 l2 l3 a b t Hsort Hrank Hstars Ha Hb.
    pose proof (merge_sort_sorted pf pinned l) as Hs. rewrite Hsort in Hs.
    apply StronglySorted_before in Hs. unfold comes_before in Hs.
    rewrite Ha, Hb in Hs. cbn [date_ms] in Hs. lia.
  - intros a b t Hrank Hstars Ha Hb Ht.
    split; cbn [Js.sort fold_right Js.insert_sorted];
      decide_merge_cmp; reflexivity.
  - intros A B C t1 t2 HsA HuA HsB HuB Ht HsC HrAB HrBC l Hl.
    simpl in Hl.
    destruct Hl as [<-|[<-|[<-|[<-|[<-|[<-|[]]]]]]];
      cbn [Js.sort fold_right Js.insert_sorted];
      repeat (decide_merge_cmp; cbn [Js.insert_sorted]); reflexivity.
Qed.

(** ** The cache *)

Section CacheFacts.
Context `{!JSON}.

Lemma loadCache_after_save (st : Storage) (t_write now : Z) (obj : list repo) :
  available st = true -> writable st = true ->
  t_write <> 0 ->
  JSON_stringify {| ts := Some t_write; data := Some obj |} <> "" ->
  JSON_parse (JSON_stringify {| ts := Some t_write; data := Some obj |})
  = Some {| ts := Some t_write; data := Some obj |} ->
  loadCache (saveCache st t_write obj) now
  = if now - t_write >? CACHE_TTL then None else Some obj.
Proof.
  intros Hav Hwr Ht Hne Hparse. unfold saveCache, setItem.
  rewrite Hav, Hwr. simpl. unfold loadCache, getItem. simpl.
  rewrite lookup_insert_eq.
  destruct (JSON_stringify _) as [|c raw] eqn:E; [congruence|].
  rewrite Hparse. simpl. destruct t_write; congruence.
Qed.

(** C6: a record set written to the cache is read back unchanged at any time
    at most one hour (3600000 milliseconds, which is what [CACHE_TTL] is)
    after the write, and reading later than that gives a miss.  The store
    accepts the write, the clock reading of the write is not the epoch
    instant 0, and the host's JSON returns the payload it printed. *)
Theorem cache_round_trip (st : Storage) (t_write t_read : Z) (obj : list repo) :
  available st = true -> writable st = true ->
  t_write <> 0 ->
  JSON_stringify {| ts := Some t_write; data := Some obj |} <> "" ->
  JSON_parse (JSON_stringify {| ts := Some t_write; data := Some obj |})
  = Some {| ts := Some t_write; data := Some obj |} ->
  CACHE_TTL = 3600000 /\
  (t_read - t_write <= 3600000 ->
   loadCache (saveCache st t_write obj) t_read = Some obj) /\
  (3600000 < t_read - t_write ->
   loadCache (saveCache st t_write obj) t_read = None).
Proof.
  intros Hav Hwr Ht Hne Hparse.
  assert (Hhour : CACHE_TTL = 3600000) by reflexivity.
  split; [exact Hhour|].
  rewrite (loadCache_after_save st t_write t_read obj Hav Hwr Ht Hne Hparse).
  rewrite Hhour.
  destruct (Z.gtb_spec (t_read - t_write) 3600000); split; intros; try reflexivity; lia.
Qed.

End CacheFacts.

Lemma cache_round_trip_witness :
  @loadCache MiniJson.codec store_written_at_1000 3601000 = Some [cached_sample] /\
  @loadCache MiniJson.codec store_written_at_1000 3601001 = None.
Proof.
  split.
  - apply (proj1 (proj2 (@cache_round_trip MiniJson.codec empty_store 1000 3601000
                           [cached_sample] eq_refl eq_refl ltac:(discriminate)
                           ltac:(discriminate) eq_refl))).
    discriminate.
  - apply (proj2 (proj2 (@cache_round_trip MiniJson.codec empty_store 1000 3601001
                           [cached_sample] eq_refl eq_refl ltac:(discriminate)
                           ltac:(discriminate) eq_refl))).
    reflexivity.
Defined.

(** ** The fallback after a failed request *)

Section InitFacts.
Context `{!JSON} `{!Intl}.

Lemma filtered_idle (pf : bool) (repos : list repo) (c : controls) :
  search_value c = "" -> language_value c = "" -> topic_value c = "" ->
  sort_value c = "pinned" -> pinned_only_checked c = false ->
  filtered pf repos c = repos.
Proof.
  intros Hq Hl Ht Hs Hp. unfold filtered, filter_pass.
  rewrite Hq, Hl, Ht, Hs, Hp, andb_false_r. reflexivity.
Qed.

Lemma loadCache_entry (st : Storage) (now : Z) (raw : string) (t : Z) (d : list repo) :
  getItem st CACHE_KEY = Some (Some raw) -> raw <> "" ->
  JSON_parse raw = Some {| ts := Some t; data := Some d |} -> t <> 0 ->
  loadCache st now = if now - t >? CACHE_TTL then None else Some d.
Proof.
  intros Hget Hraw Hparse Ht. unfold loadCache. rewrite Hget.
  destruct raw as [|c raw]; [congruence|]. rewrite Hparse. simpl.
  destruct t; congruence.
Qed.

(** C1, as the code has it: when the primary request fails, the run keeps and renders
    the record set [loadCache] returned before the request, which it returns
    only for an entry that is at most [CACHE_TTL] old; when [loadCache]
    returned nothing (no entry, or an entry older than [CACHE_TTL]) the run
    renders the single placeholder record named profile. *)
Theorem fetch_failure_fallback (o : options) (e : env) (user : string) :
  parseGithubProfile (url_pathname e) = Some user ->
  has_root e = true ->
  repos_reply e = None ->
  exists repos,
    initProjects o e
    = Some (Resolved repos (storage e)
              (applyFilters (pinnedFirst o) (now_done e) repos (form e))) /\
    (form e = idle_controls ->
     applyFilters (pinnedFirst o) (now_done e) repos (form e)
     = renderGrid (now_done e) repos) /\
    (forall d, loadCache (storage e) (now_load e) = Some d -> repos = d) /\
    (loadCache (storage e) (now_load e) = None ->
     repos = [fallback_record (now_done e)] /\
     name (fallback_record (now_done e)) = "profile") /\
    (forall raw t d,
        getItem (storage e) CACHE_KEY = Some (Some raw) -> raw <> "" ->
        JSON_parse raw = Some {| ts := Some t; data := Some d |} -> t <> 0 ->
        (now_load e - t <= CACHE_TTL -> repos = d) /\
        (CACHE_TTL < now_load e - t -> repos = [fallback_record (now_done e)])) /\
    (getItem (storage e) CACHE_KEY = Some None ->
     repos = [fallback_record (now_done e)]).
Proof.
  intros Huser Hroot Hfail.
  exists (match loadCache (storage e) (now_load e) with
          | Some d => d
          | None => [fallback_record (now_done e)]
          end).
  split; [|split; [|split; [|split; [|split]]]].
  - unfold initProjects, try_fetch. rewrite Huser, Hroot, Hfail. reflexivity.
  - intros ->. unfold applyFilters. now rewrite filtered_idle.
  - now intros d ->.
  - now intros ->.
  - intros raw t d Hget Hraw Hparse Ht.
    rewrite (loadCache_entry _ _ raw t d Hget Hraw Hparse Ht).
    destruct (Z.gtb_spec (now_load e - t) CACHE_TTL); split; intros; try reflexivity; lia.
  - intros Hget. unfold loadCache. now rewrite Hget.
Qed.

End InitFacts.

Lemma fetch_failure_fallback_witness :
  exists repos,
    @initProjects MiniJson.codec code_unit_order default_options (failing_run 2000)
    = Some (Resolved repos store_written_at_1000
              (@applyFilters code_unit_order true 2250 repos idle_controls)) /\
    repos = [cached_sample].
Proof.
  destruct (@fetch_failure_fallback MiniJson.codec code_unit_order
              default_options (failing_run 2000) "octocat"
              eq_refl eq_refl eq_refl) as [repos [Hrun [_ [Hhit _]]]].
  exists repos. split; [exact Hrun | apply Hhit; reflexivity].
Defined.

(** C1 does not hold as the specification words it: the store holds an
    entry written at time 1000 with one record; the request fails one
    millisecond after the entry turned one hour old; the run renders the
    placeholder, not the stored record. *)
Lemma stale_cache_not_used :
  (exists raw,
      items (storage (failing_run (1000 + CACHE_TTL + 1))) !! CACHE_KEY = Some raw /\
      MiniJson.parse_payload raw
      = Some {| ts := Some 1000; data := Some [cached_sample] |}) /\
  repos_reply (failing_run (1000 + CACHE_TTL + 1)) = None /\
  @initProjects MiniJson.codec code_unit_order default_options
    (failing_run (1000 + CACHE_TTL + 1))
  = Some (Resolved [fallback_record (1000 + CACHE_TTL + 1 + 250)] store_written_at_1000
            (renderGrid (1000 + CACHE_TTL + 1 + 250)
               [fallback_record (1000 + CACHE_TTL + 1 + 250)])) /\
  [fallback_record (1000 + CACHE_TTL + 1 + 250)] <> [cached_sample].
Proof.
  split; [|split; [|split]].
  - eexists. split; [vm_compute; reflexivity | vm_compute; reflexivity].
  - reflexivity.
  - vm_compute. reflexivity.
  - discriminate.
Qed.

(** ** The filter pass *)

Lemma filter_filter_and {A} (f g : A -> bool) (l : list A) :
  List.filter f (List.filter g l) = List.filter (fun x => g x && f x) l.
Proof.
  induction l as [|x l IH]; simpl; [reflexivity|].
  destruct (g x); simpl; [destruct (f x)|]; now rewrite IH.
Qed.

Lemma filter_all {A} (l : list A) : List.filter (fun _ => true) l = l.
Proof. induction l as [|x l IH]; simpl; [reflexivity | now rewrite IH]. Qed.

Lemma filter_if {A} (b : bool) (f : A -> bool) (l : list A) :
  (if b then List.filter f l else l) = List.filter (fun x => negb b || f x) l.
Proof. destruct b; simpl; [reflexivity | now rewrite filter_all]. Qed.

Lemma filter_unless_empty {A} (q : string) (f : A -> bool) (l : list A) :
  match q with EmptyString => l | String _ _ => List.filter f l end
  = List.filter (fun x => String.eqb q "" || f x) l.
Proof. destruct q; simpl; [now rewrite filter_all | reflexivity]. Qed.

Lemma includes_empty (hay : string) : Js.includes hay "" = true.
Proof. now destruct hay. Qed.

Lemma filter_pass_keeps (pf : bool) (repos : list repo) (c : controls) :
  filter_pass pf repos c = List.filter (keeps pf repos c) repos.
Proof.
  unfold filter_pass. cbv zeta.
  rewrite !filter_unless_empty, filter_if, !filter_filter_and.
  apply List.filter_ext. intros r.
  unfold keeps, pinned_only_active, query_of. rewrite !str_or_empty.
  destruct (String.eqb_spec (Js.trim (Js.toLowerCase (search_value c))) "") as [->|_];
    [rewrite includes_empty|]; simpl; now rewrite ?andb_true_r, ?andb_assoc.
Qed.

Lemma existsb_eqb_In (x : string) (l : list string) :
  existsb (String.eqb x) l = true <-> In x l.
Proof.
  rewrite existsb_exists. split.
  - intros [y [Hy E]]. apply String.eqb_eq in E. now subst.
  - intros H. exists x. split; [assumption | apply String.eqb_refl].
Qed.

Lemma keeps_passes (pf : bool) (repos : list repo) (c : controls) (r : repo) :
  keeps pf repos c r = true <-> passes pf repos c r.
Proof.
  unfold keeps, passes, substring_of.
  rewrite !andb_true_iff, !orb_true_iff, includes_spec, !String.eqb_eq,
    existsb_eqb_In, existsb_exists, negb_true_iff.
  split.
  - intros [[[Hpin Hq] Hl] Ht]. repeat split; try assumption.
    intros Hact. destruct Hpin as [Hpin|[p [Hp E]]]; [congruence|].
    exists p. split; [assumption | now apply String.eqb_eq].
  - intros [Hpin [Hq [Hl Ht]]]. repeat split; try assumption.
    destruct (pinned_only_active pf c); [right|now left].
    destruct (Hpin eq_refl) as [p [Hp E]]. exists p. split; [assumption|].
    now apply String.eqb_eq.
Qed.

Section FilterFacts.
Context `{!Intl}.

Lemma sort_pass_perm (mode : string) (l : list repo) : Permutation (sort_pass mode l) l.
Proof.
  unfold sort_pass.
  destruct (String.eqb mode "stars"); [apply sort_perm|].
  destruct (String.eqb mode "updated"); [apply sort_perm|].
  destruct (String.eqb mode "az"); [apply sort_perm | apply Permutation_refl].
Qed.

Lemma filtered_perm (pf : bool) (repos : list repo) (c : controls) :
  Permutation (filtered pf repos c) (List.filter (keeps pf repos c) repos).
Proof. unfold filtered. rewrite filter_pass_keeps. apply sort_pass_perm. Qed.

Lemma filtered_In (pf : bool) (repos : list repo) (c : controls) (r : repo) :
  In r (filtered pf repos c) <-> In r repos /\ passes pf repos c r.
Proof.
  rewrite <- keeps_passes, <- filter_In. split; apply Permutation_in;
    [|apply Permutation_sym]; apply filtered_perm.
Qed.

(** C7, as the code has it: the filter pass keeps exactly the records that satisfy
    the conjunction of: when the pinned-only restriction is in force, the
    name is among those of the first ten records; the lower-cased and
    trimmed query occurs in the lower-cased text made of the name, the
    description and the topics joined by single spaces; the selected
    language, if any, equals the record's language up to case; the selected
    topic, if any, is among the record's topics up to case.  The kept
    records are rendered in the order of the selected sort mode, and an
    empty result renders the empty-state message. *)
Theorem filter_conjunction (pf : bool) (now : Z) (repos : list repo) (c : controls) :
  (forall r, In r (filtered pf repos c) <-> In r repos /\ passes pf repos c r) /\
  (forall r, keeps pf repos c r = true <-> passes pf repos c r) /\
  Permutation (filtered pf repos c) (List.filter (keeps pf repos c) repos) /\
  (sort_value c = "pinned" ->
   filtered pf repos c = List.filter (keeps pf repos c) repos) /\
  ((forall r, In r repos -> ~ passes pf repos c r) ->
   applyFilters pf now repos c
   = EmptyState "projects-empty" "No projects match your filters.") /\
  (forall r rest, filtered pf repos c = r :: rest ->
   applyFilters pf now repos c
   = Grid "projects-grid-inner" (List.map (buildCard now) (r :: rest))).
Proof.
  split; [|split; [|split; [|split; [|split]]]].
  - apply filtered_In.
  - apply keeps_passes.
  - apply filtered_perm.
  - intros Hs. unfold filtered, sort_pass. rewrite Hs. simpl. apply filter_pass_keeps.
  - intros Hnone. unfold applyFilters.
    destruct (filtered pf repos c) as [|r rest] eqn:E; [reflexivity|].
    exfalso. apply (Hnone r); apply (filtered_In pf repos c r); rewrite E; simpl; tauto.
  - intros r rest E. unfold applyFilters. now rewrite E.
Qed.

End FilterFacts.

Example filter_by_query :
  @filtered code_unit_order true [foo; bar] (search_for "foo" "") = [foo].
Proof. reflexivity. Qed.

Example filter_by_language :
  @filtered code_unit_order true [foo; bar] (search_for "" "Rust") = [bar].
Proof. reflexivity. Qed.

Example filter_impossible_pair :
  @filtered code_unit_order true [foo; bar] (search_for "foo" "Rust") = [] /\
  @applyFilters code_unit_order true 0 [foo; bar] (search_for "foo" "Rust")
  = EmptyState "projects-empty" "No projects match your filters.".
Proof. split; reflexivity. Qed.

(** C7 does not hold as the specification words it.  A query with a leading
    space keeps the record foo although the query as typed occurs neither in
    the space-separated text of the record nor in the plain concatenation of
    its fields; the query ob drops the record named fo and described as bar
    although ob occurs in the plain concatenation of its fields; and with
    the pinned-only restriction in force the eleventh record is dropped
    although the query is empty and no language or topic is selected. *)
Lemma filter_trims_query_and_restricts_pinned :
  (In foo (@filtered code_unit_order true [foo; bar] (search_for " foo" "")) /\
   Js.includes (Js.toLowerCase (haystack foo)) (Js.toLowerCase " foo") = false /\
   Js.includes
     (Js.toLowerCase (name foo +:+ description foo +:+ Js.join "" (topics foo)))
     (Js.toLowerCase " foo") = false) /\
  (~ In fo_bar (@filtered code_unit_order true [fo_bar] (search_for "ob" "")) /\
   Js.includes
     (Js.toLowerCase (name fo_bar +:+ description fo_bar +:+ Js.join "" (topics fo_bar)))
     (Js.toLowerCase "ob") = true) /\
  (In eleventh eleven /\
   search_value (with_pinned_only true idle_controls) = "" /\
   language_value (with_pinned_only true idle_controls) = "" /\
   topic_value (with_pinned_only true idle_controls) = "" /\
   ~ In eleventh (@filtered code_unit_order true eleven (with_pinned_only true idle_controls))).
Proof.
  split; [repeat split; simpl; tauto|].
  split; [split; [intros []|reflexivity]|].
  split; [simpl; tauto|]. repeat split.
  vm_compute. intuition discriminate.
Qed.

(** ** Exclusion patterns *)

Lemma upper_lower (a : ascii) : Js.upper_char (Js.lower_char a) = Js.upper_char a.
Proof. destruct a as [[] [] [] [] [] [] [] []]; reflexivity. Qed.

Lemma ci_eq_upper (a b : ascii) :
  ci_eq a b = true -> Ascii.eqb (Js.upper_char a) (Js.upper_char b) = true.
Proof.
  unfold ci_eq. intros H. apply Ascii.eqb_eq in H. apply Ascii.eqb_eq.
  rewrite <- (upper_lower a), <- (upper_lower b). now rewrite H.
Qed.

Lemma replaced_head (p : string) :
  head_is_star (Js.replaceAll "*" ".*" p +:+ "$") = false.
Proof.
  destruct p as [|c p]; [reflexivity|]. simpl.
  destruct (Ascii.eqb c "*") eqn:E; [reflexivity | exact E].
Qed.

(** The expression built from a pattern has the atoms read off the pattern. *)
Lemma parse_body_replaced (p : string) :
  RegExp.parse_body (Js.replaceAll "*" ".*" p +:+ "$") = atoms_of p.
Proof.
  induction p as [|c p IH]; [reflexivity|].
  pose proof (replaced_head p) as Hhead.
  simpl. destruct (Ascii.eqb_spec c "*") as [->|Hstar].
  - simpl. now rewrite IH.
  - simpl. destruct (Ascii.eqb_spec c "$") as [->|Hdollar].
    + now destruct (Js.replaceAll "*" ".*" p).
    + destruct (Ascii.eqb_spec c ".") as [->|Hdot]; [|now rewrite IH].
      rewrite <- IH.
      destruct (Js.replaceAll "*" ".*" p +:+ "$") as [|c2 rest]; [reflexivity|].
      simpl in Hhead. now rewrite Hhead.
Qed.

Lemma compile_pattern (p : string) :
  RegExp.compile ("^" +:+ Js.replaceAll "*" ".*" p +:+ "$") = atoms_of p.
Proof. simpl. apply parse_body_replaced. Qed.

Lemma star_refines (k1 k2 : string -> bool) (s : string) :
  (forall t, single_line t = true -> k1 t = true -> k2 t = true) ->
  single_line s = true ->
  after_any k1 s = true -> RegExp.star k2 s = true.
Proof.
  intros Hk. induction s as [|x s IH]; simpl; intros Hs Hany.
  - rewrite orb_false_r in *. now apply Hk.
  - apply andb_true_iff in Hs as [Hx Hs]. apply orb_true_iff in Hany as [Hany|Hany].
    + rewrite (Hk (String x s)); [reflexivity | simpl; now rewrite Hx, Hs | assumption].
    + rewrite Hx, (IH Hs Hany). apply orb_true_r.
Qed.

(** On a name without line terminators, the expression matches whatever the
    wildcard rule matches. *)
Lemma test_refines (p : string) (rx : list RegExp.atom) (s : string) :
  atoms_of p = Some rx ->
  single_line s = true ->
  wildcard_match p s = true -> RegExp.test rx s = true.
Proof.
  revert rx s. induction p as [|c p IH]; intros rx s Hrx Hs Hw; simpl in Hrx.
  - injection Hrx as <-. exact Hw.
  - simpl in Hw. destruct (atoms_of p) as [rx'|] eqn:Ep.
    + destruct (Ascii.eqb c "*") eqn:Estar.
      * injection Hrx as <-. simpl. eapply star_refines; [|exact Hs|exact Hw].
        intros t Ht Hk. now apply IH.
      * destruct s as [|x s]; [discriminate|].
        apply andb_true_iff in Hw as [Hc Hw].
        simpl in Hs. apply andb_true_iff in Hs as [Hx Hs].
        destruct (Ascii.eqb c ".").
        -- injection Hrx as <-. simpl. rewrite Hx. now apply IH.
        -- destruct (RegExp.is_syntax_char c || negb (RegExp.is_ascii c)); [discriminate|].
           injection Hrx as <-. simpl. rewrite (ci_eq_upper _ _ Hc). now apply IH.
    + destruct (Ascii.eqb c "*"); [discriminate|].
      destruct (Ascii.eqb c "."); [discriminate|].
      now destruct (RegExp.is_syntax_char c || negb (RegExp.is_ascii c)).
Qed.

Lemma pattern_test_false (nm p : string) :
  pattern_test nm p = Some false ->
  single_line nm = true -> wildcard_match p nm = false.
Proof.
  unfold pattern_test. rewrite compile_pattern.
  destruct (atoms_of p) as [rx|] eqn:Ep; [|discriminate]. simpl.
  intros Htest Hs. injection Htest as Htest.
  destruct (wildcard_match p nm) eqn:Hw; [|reflexivity].
  now rewrite (test_refines p rx nm Ep Hs Hw) in Htest.
Qed.

Lemma some_pattern_false (nm : string) (ps : list string) (p : string) :
  some_pattern nm ps = Some false -> In p ps -> pattern_test nm p = Some false.
Proof.
  induction ps as [|q ps IH]; simpl; [tauto|].
  destruct (pattern_test nm q) as [[|]|] eqn:E; try discriminate.
  intros H [<-|Hin]; [exact E | now apply IH].
Qed.

Lemma matchesPattern_false (nm : string) (ps : list string) (p : string) :
  matchesPattern nm ps = Some false -> In p ps -> pattern_test nm p = Some false.
Proof.
  destruct ps as [|q ps]; [intros _ []|]. apply some_pattern_false.
Qed.

Lemma keep_fetched_sound (excl : list string) (fetched kept : list raw_repo) (r : raw_repo) :
  keep_fetched excl fetched = Some kept -> In r kept ->
  In r fetched /\ r_fork r = false /\ r_archived r = false /\
  matchesPattern (r_name r) excl = Some false.
Proof.
  revert kept. induction fetched as [|x fetched IH]; intros kept; simpl.
  - intros [= <-] [].
  - destruct (keep_fetched excl fetched) as [rest|] eqn:Erest.
    + destruct (r_fork x) eqn:Ef; simpl.
      { intros [= <-] Hin. destruct (IH rest eq_refl Hin) as [? ?]. tauto. }
      destruct (r_archived x) eqn:Ea; simpl.
      { intros [= <-] Hin. destruct (IH rest eq_refl Hin) as [? ?]. tauto. }
      destruct (matchesPattern (r_name x) excl) as [[|]|] eqn:Em; simpl.
      * intros [= <-] Hin. destruct (IH rest eq_refl Hin) as [? ?]. tauto.
      * intros [= <-] [<-|Hin]; [tauto|].
        destruct (IH rest eq_refl Hin) as [? ?]. tauto.
      * discriminate.
    + destruct (r_fork x); simpl; [discriminate|].
      destruct (r_archived x); simpl; [discriminate|].
      destruct (matchesPattern (r_name x) excl); simpl; discriminate.
Qed.

Section ExclusionFacts.
Context `{!JSON} `{!Intl}.

Lemma initProjects_fetched (o : options) (e : env) (fetched : list raw_repo)
    (repos : list repo) (st : Storage) (view : root_content) :
  repos_reply e = Some fetched ->
  initProjects o e = Some (Resolved repos st view) ->
  exists kept,
    keep_fetched (exclude o) fetched = Some kept /\
    repos = Js.sort (merge_cmp (pinnedFirst o) (pinned_records o e))
              (dedupeByName (pinned_records o e ++ List.map normalizeRepo kept)) /\
    st = saveCache (storage e) (now_done e) repos /\
    view = renderGrid (now_done e) (filtered (pinnedFirst o) repos (form e)).
Proof.
  intros Hreply. unfold initProjects, try_fetch. rewrite Hreply.
  destruct (parseGithubProfile (url_pathname e)); [|discriminate].
  destruct (has_root e); simpl; [|discriminate].
  destruct (keep_fetched (exclude o) fetched) as [kept|]; simpl; [|discriminate].
  intros [= <- <- <-]. exists kept. auto.
Qed.

(** C2, as the code has it: after a successful primary request, a rendered
    record whose name (a text without line breaks) matches a pattern of the
    exclusion list is a record of the pinned listing: the exclusion list
    removes the matching repositories of the primary listing, and it is not
    applied to the pinned listing. *)
Theorem excluded_unless_pinned (o : options) (e : env) (fetched : list raw_repo)
    (repos : list repo) (st : Storage) (view : root_content) :
  repos_reply e = Some fetched ->
  initProjects o e = Some (Resolved repos st view) ->
  view = renderGrid (now_done e) (filtered (pinnedFirst o) repos (form e)) /\
  forall r p,
    In r (filtered (pinnedFirst o) repos (form e)) ->
    In p (exclude o) ->
    single_line (name r) = true ->
    wildcard_match p (name r) = true ->
    In r (pinned_records o e).
Proof.
  intros Hreply Hrun.
  destruct (initProjects_fetched o e fetched repos st view Hreply Hrun)
    as [kept [Hkept [Hrepos [_ Hview]]]].
  split; [exact Hview|]. intros r p Hr Hp Hline Hmatch.
  apply filtered_In in Hr as [Hr _]. rewrite Hrepos in Hr.
  apply sort_In in Hr. apply dedupe_from_In in Hr as [Hr _].
  apply in_app_or in Hr as [Hr|Hr]; [exact Hr|].
  exfalso. apply in_map_iff in Hr as [raw [<- Hraw]].
  destruct (keep_fetched_sound _ _ _ _ Hkept Hraw) as [_ [_ [_ Hno]]].
  pose proof (matchesPattern_false _ _ p Hno Hp) as Htest.
  apply pattern_test_false in Htest; [|exact Hline].
  simpl in Hmatch. congruence.
Qed.

(** C10: with pinned-first disabled, the pinned-only toggle changes nothing:
    for every record set and every state of the other controls, the filtered
    list and the rendered grid are the same with the toggle checked and
    unchecked, and a run of [initProjects] called with [pinnedFirst = false]
    ends the same way whatever the toggle holds. *)
Theorem pinned_only_ignored_without_pinned_first
    (now : Z) (repos : list repo) (c : controls) :
  filtered false repos (with_pinned_only true c)
  = filtered false repos (with_pinned_only false c) /\
  applyFilters false now repos (with_pinned_only true c)
  = applyFilters false now repos (with_pinned_only false c) /\
  (forall o e b,
      pinnedFirst o = false ->
      initProjects o (with_form (with_pinned_only b (form e)) e)
      = initProjects o (with_form (with_pinned_only (negb b) (form e)) e)).
Proof.
  split; [reflexivity|]. split; [reflexivity|].
  intros o e b Hpf. unfold initProjects, try_fetch, applyFilters, pinned_records.
  rewrite Hpf. reflexivity.
Qed.

End ExclusionFacts.

Lemma excluded_unless_pinned_witness :
  exists repos st view,
    @initProjects MiniJson.codec code_unit_order draft_options draft_run
    = Some (Resolved repos st view) /\
    List.map name repos = ["draft-p"; "site"] /\
    view = renderGrid 1250 (@filtered code_unit_order true repos idle_controls) /\
    forall r p,
      In r (@filtered code_unit_order true repos idle_controls) ->
      In p ["draft-*"] ->
      single_line (name r) = true ->
      wildcard_match p (name r) = true ->
      name r = "draft-p".
Proof.
  eexists _, _, _. split; [vm_compute; reflexivity|]. split; [reflexivity|].
  destruct (@excluded_unless_pinned MiniJson.codec code_unit_order draft_options draft_run
              [raw_named "Draft-a"; raw_named "draft-p"; raw_named "site"] _ _ _
              eq_refl eq_refl) as [Hview Hpinned].
  split; [exact Hview|]. intros r p Hr Hp Hline Hmatch.
  destruct (Hpinned r p Hr Hp Hline Hmatch) as [<-|[]]. reflexivity.
Defined.

(** C2 does not hold as the specification words it.  The repository draft-p
    matches the exclusion pattern and is rendered, because it is pinned;
    after a failed request the placeholder named profile is rendered although
    it matches the pattern, because the fallback is not filtered; and a name
    that spans two lines is not matched by a lone star, because the dot of a
    regular expression stops at a line terminator. *)
Lemma pinned_record_escapes_exclusion :
  (exists repos st view r,
      @initProjects MiniJson.codec code_unit_order draft_options draft_run
      = Some (Resolved repos st view) /\
      In r (@filtered code_unit_order (pinnedFirst draft_options) repos (form draft_run)) /\
      name r = "draft-p" /\
      In "draft-*" (exclude draft_options) /\
      wildcard_match "draft-*" (name r) = true) /\
  (exists repos st view r,
      @initProjects MiniJson.codec code_unit_order pro_options offline_run
      = Some (Resolved repos st view) /\
      In r (@filtered code_unit_order (pinnedFirst pro_options) repos (form offline_run)) /\
      name r = "profile" /\
      In "pro*" (exclude pro_options) /\
      wildcard_match "pro*" (name r) = true) /\
  (wildcard_match "*" two_line_name = true /\
   matchesPattern two_line_name ["*"] = Some false).
Proof.
  split; [|split].
  - eexists _, _, _, _. split; [vm_compute; reflexivity|].
    split; [left; reflexivity|]. split; [reflexivity|]. split; [left; reflexivity|].
    reflexivity.
  - eexists _, _, _, _. split; [vm_compute; reflexivity|].
    split; [left; reflexivity|]. split; [reflexivity|]. split; [left; reflexivity|].
    reflexivity.
  - split; reflexivity.
Qed.

(** ** The theorems on sample inputs *)

Lemma relativeTime_largest_unit_witness :
  relativeTime 5400000 (Some 0) = Js.string_of_Z (unit_value (5400000 - 0) Hours) +:+ "h" /\
  Js.string_of_Z (unit_value (5400000 - 0) Hours) = "1".
Proof.
  split; [|reflexivity].
  apply (proj1 relativeTime_largest_unit 5400000 0 Hours).
  - vm_compute. discriminate.
  - intros u'. destruct u'; vm_compute; intros H;
      first [discriminate | exfalso; apply H; reflexivity].
Defined.

Lemma truncate_description_witness :
  String.length long_description = 130%nat /\
  truncate long_description 120
  = String.substring 0 119 long_description +:+ utf8 [8218; 196; 182] /\
  String.length (String.substring 0 119 long_description) = 119%nat /\
  truncate long_description 120 <> String.substring 0 119 long_description.
Proof.
  destruct (truncate_description long_description)
    as [[Hmarker [_ Hdiff]] [_ [H130 _]]].
  destruct (H130 eq_refl) as [Htrunc Hlen].
  split; [reflexivity|]. split; [|split; [exact Hlen|]].
  - rewrite Htrunc, Hmarker. reflexivity.
  - apply Hdiff. simpl. lia.
Defined.

Lemma dedupeByName_keeps_first_witness :
  List.filter (has_name "site") (dedupeByName ([pinned_copy] ++ [listing_copy; other_repo]))
  = [pinned_copy] /\
  dedupeByName ([pinned_copy] ++ [other_repo]) = [pinned_copy] ++ [other_repo].
Proof.
  split.
  - apply (proj1 (proj2 (proj2 (dedupeByName_keeps_first [pinned_copy]
                                  [listing_copy; other_repo])))).
    reflexivity.
  - apply (proj2 (proj2 (proj2 (proj2 (dedupeByName_keeps_first [pinned_copy]
                                         [other_repo]))))).
    simpl.
    repeat (apply NoDup_cons_2; [rewrite list_elem_of_In; simpl; intuition discriminate|]).
    apply NoDup_nil_2.
Defined.

Lemma merge_sort_order_witness :
  Js.sort (merge_cmp true [rec_A; rec_B; rec_C]) [rec_A; rec_C; rec_B]
  = [rec_B; rec_A; rec_C] /\
  Js.sort (merge_cmp false [rec_C]) [rec_C; rec_B; rec_A] = [rec_B; rec_A; rec_C] /\
  in_pinned_set [rec_C; rec_A] rec_A.
Proof.
  split; [|split].
  - apply (proj2 (proj2 (proj2 (proj2 (merge_sort_order true [rec_A; rec_B; rec_C]))))
             rec_A rec_B rec_C 1000 2000);
      try reflexivity. simpl. tauto.
  - apply (proj2 (proj2 (proj2 (proj2 (merge_sort_order false [rec_C]))))
             rec_A rec_B rec_C 1000 2000);
      try reflexivity. simpl. tauto.
  - apply (proj1 (proj2 (merge_sort_order true [rec_C; rec_A]))
             [rec_A; rec_B; rec_C] [] [] [rec_B] rec_A rec_C);
      [reflexivity | reflexivity | left; reflexivity].
Defined.

Example merge_sort_pinned_before_stars :
  Js.sort (merge_cmp true [rec_C]) [rec_A; rec_B; rec_C] = [rec_C; rec_B; rec_A] /\
  Js.sort (merge_cmp false [rec_C]) [rec_A; rec_B; rec_C] = [rec_B; rec_A; rec_C].
Proof. split; reflexivity. Qed.

Lemma filter_conjunction_witness :
  @applyFilters code_unit_order true 0 [foo; bar] (search_for "foo" "Rust")
  = EmptyState "projects-empty" "No projects match your filters." /\
  (In bar (@filtered code_unit_order true [foo; bar] (search_for "" "rust")) <->
   In bar [foo; bar] /\ passes true [foo; bar] (search_for "" "rust") bar).
Proof.
  split.
  - apply (proj1 (proj2 (proj2 (proj2 (proj2
             (@filter_conjunction code_unit_order true 0 [foo; bar]
                (search_for "foo" "Rust"))))))).
    intros r [<-|[<-|[]]]; rewrite <- keeps_passes; discriminate.
  - apply (proj1 (@filter_conjunction code_unit_order true 0 [foo; bar]
                    (search_for "" "rust"))).
Defined.

Lemma pinned_only_ignored_witness :
  @initProjects MiniJson.codec code_unit_order unpinned_options
    (with_form (with_pinned_only true idle_controls) draft_run)
  = @initProjects MiniJson.codec code_unit_order unpinned_options
      (with_form (with_pinned_only false idle_controls) draft_run).
Proof.
  apply (proj2 (proj2 (@pinned_only_ignored_without_pinned_first
                         MiniJson.codec code_unit_order 0 [] idle_controls))
           unpinned_options draft_run true).
  reflexivity.
Defined.

(** ** Further properties of the script *)

(** X1: the output of [escapeHtml] holds no angle bracket and no double
    quote, whatever the input. *)
Theorem escapeHtml_output_is_text (s : string) :
  has_markup_char (escapeHtml s) = false.
Proof. apply escapeHtml_no_markup. Qed.

(** X2: [normalizeRepo] copies the name and falls back to defaults for the
    fields that are missing: the empty description, no homepage, zero stars
    and forks, no time stamp, the language Unknown and no topics; a language
    of the REST shape wins over the GraphQL one, and the language is never
    empty. *)
Theorem normalizeRepo_defaults (r : raw_repo) :
  name (normalizeRepo r) = r_name r /\
  (r_description r = None -> description (normalizeRepo r) = "") /\
  (r_stargazers_count r = None -> stars (normalizeRepo r) = 0) /\
  (r_forks_count r = None -> forks (normalizeRepo r) = 0) /\
  (r_pushed_at r = None -> r_updated_at r = None -> updated (normalizeRepo r) = None) /\
  (r_homepage r = None -> r_homepageUrl r = None -> homepage (normalizeRepo r) = None) /\
  (r_topics r = None -> r_repository_topics r = None -> topics (normalizeRepo r) = []) /\
  (r_language r = None -> r_primaryLanguage r = None ->
   language (normalizeRepo r) = "Unknown") /\
  (forall c l, r_language r = Some (String c l) ->
   language (normalizeRepo r) = String c l) /\
  language (normalizeRepo r) <> "" /\
  normalizeRepo (bare_raw (r_name r))
  = {| name := r_name r; description := ""; html_url := None; homepage := None;
       stars := 0; forks := 0; updated := None; language := "Unknown";
       topics := [] |}.
Proof.
  unfold normalizeRepo. simpl.
  split; [reflexivity|].
  split; [now intros ->|].
  split; [now intros ->|].
  split; [now intros ->|].
  split; [now intros -> ->|].
  split; [now intros -> ->|].
  split; [now intros -> ->|].
  split; [now intros -> ->|].
  split; [now intros c l ->|].
  split; [|reflexivity].
  destruct (r_language r) as [[|c l]|]; simpl; try discriminate;
    destruct (r_primaryLanguage r) as [[|c' l']|]; simpl; discriminate.
Qed.

(** [renderGrid] shows the empty-state message for the empty list and
    only for it; any other list gives one card per record, in order. *)
Theorem renderGrid_cases (now : Z) (l : list repo) :
  (renderGrid now l = EmptyState "projects-empty" "No projects match your filters."
   <-> l = []) /\
  (l <> [] ->
   renderGrid now l = Grid "projects-grid-inner" (List.map (buildCard now) l)) /\
  (forall r, card_chips (buildCard now r) = List.map renderChip (firstn 3 (topics r))).
Proof.
  split; [|split].
  - destruct l; simpl; split; intros H; try reflexivity; discriminate.
  - destruct l; [congruence | reflexivity].
  - reflexivity.
Qed.

Lemma lower_upper (a : ascii) : Js.lower_char (Js.upper_char a) = Js.lower_char a.
Proof. destruct a as [[] [] [] [] [] [] [] []]; reflexivity. Qed.

Lemma upper_eqb_ci_eq (a b : ascii) :
  Ascii.eqb (Js.upper_char a) (Js.upper_char b) = ci_eq a b.
Proof.
  unfold ci_eq.
  destruct (Ascii.eqb_spec (Js.lower_char a) (Js.lower_char b)) as [E|E].
  - apply Ascii.eqb_eq. rewrite <- (upper_lower a), <- (upper_lower b). now rewrite E.
  - apply Ascii.eqb_neq. intros E'. apply E.
    rewrite <- (lower_upper a), <- (lower_upper b). now rewrite E'.
Qed.

Lemma star_after_any (k1 k2 : string -> bool) (s : string) :
  (forall t, single_line t = true -> k2 t = k1 t) ->
  single_line s = true ->
  RegExp.star k2 s = after_any k1 s.
Proof.
  intros Hk. induction s as [|x s IH]; simpl; intros Hs.
  - now rewrite Hk.
  - apply andb_true_iff in Hs as [Hx Hs].
    rewrite Hk by (simpl; now rewrite Hx, Hs). now rewrite Hx, IH.
Qed.

Lemma plain_pattern_test (p : string) :
  plain_pattern p = true ->
  exists rx, atoms_of p = Some rx /\
             forall s, single_line s = true -> RegExp.test rx s = wildcard_match p s.
Proof.
  induction p as [|c p IH]; simpl; intros Hp.
  - exists []. split; [reflexivity|]. now intros [|x s].
  - apply andb_true_iff in Hp as [Hc Hp]. destruct (IH Hp) as [rx [Hrx Htest]].
    rewrite Hrx. unfold plain_char in Hc.
    destruct (Ascii.eqb_spec c "*") as [->|Hstar]; simpl.
    + exists (RegExp.DotStar :: rx). split; [reflexivity|].
      intros s Hs. simpl. now apply star_after_any.
    + simpl in Hc. apply negb_true_iff in Hc.
      destruct (Ascii.eqb_spec c ".") as [->|Hdot]; [discriminate|].
      rewrite Hc. exists (RegExp.Lit c :: rx). split; [reflexivity|].
      intros [|x s] Hs; simpl; [reflexivity|].
      simpl in Hs. apply andb_true_iff in Hs as [_ Hs].
      now rewrite upper_eqb_ci_eq, Htest.
Qed.

Lemma some_pattern_plain (nm : string) (ps : list string) :
  forallb plain_pattern ps = true -> single_line nm = true ->
  some_pattern nm ps = Some (existsb (fun p => wildcard_match p nm) ps).
Proof.
  intros Hps Hnm. induction ps as [|p ps IH]; simpl; [reflexivity|].
  simpl in Hps. apply andb_true_iff in Hps as [Hp Hps].
  destruct (plain_pattern_test p Hp) as [rx [Hrx Htest]].
  unfold pattern_test. rewrite compile_pattern, Hrx. simpl.
  rewrite (Htest nm Hnm). destruct (wildcard_match p nm); [reflexivity | now apply IH].
Qed.

(** X4: for patterns made of plain characters and stars and a name without
    line breaks, [matchesPattern] decides the wildcard rule: the name matches
    some pattern with [*] standing for any substring, the pattern covering
    the whole name, and letters compared without regard to case. *)
Theorem matchesPattern_is_wildcard (nm : string) (ps : list string) :
  forallb plain_pattern ps = true -> single_line nm = true ->
  matchesPattern nm ps = Some (existsb (fun p => wildcard_match p nm) ps).
Proof.
  intros Hps Hnm. destruct ps as [|p ps]; [reflexivity|].
  now apply some_pattern_plain.
Qed.

Lemma matchesPattern_is_wildcard_witness :
  matchesPattern "Draft-Notes" ["old-*"; "draft-*"] = Some true /\
  matchesPattern "my-draft" ["old-*"; "draft-*"] = Some false.
Proof.
  split.
  - apply (matchesPattern_is_wildcard "Draft-Notes" ["old-*"; "draft-*"]); reflexivity.
  - apply (matchesPattern_is_wildcard "my-draft" ["old-*"; "draft-*"]); reflexivity.
Defined.

Lemma split_head (s : string) : exists ws, Js.split "/" s = upto_slash s :: ws.
Proof.
  induction s as [|c s [ws IH]]; simpl; [now exists []|].
  rewrite IH. destruct (Ascii.eqb c "/"); eauto.
Qed.

Lemma parseGithubProfile_segment (p : string) :
  parseGithubProfile (Some p)
  = match skip_slashes p with
    | EmptyString => None
    | String c rest => Some (upto_slash (String c rest))
    end.
Proof.
  unfold parseGithubProfile. induction p as [|c p IH]; [reflexivity|].
  simpl. destruct (split_head p) as [ws Hws]. rewrite Hws in *.
  destruct (Ascii.eqb c "/") eqn:E; simpl.
  - exact IH.
  - now rewrite E.
Qed.

Lemma skip_slashes_head (p : string) :
  match skip_slashes p with
  | EmptyString => True
  | String c _ => Ascii.eqb c "/" = false
  end.
Proof.
  induction p as [|c p IH]; simpl; [exact I|].
  destruct (Ascii.eqb c "/") eqn:E; [exact IH | exact E].
Qed.

Lemma upto_slash_no_slash (s : string) : Js.includes (upto_slash s) "/" = false.
Proof.
  induction s as [|c s IH]; [reflexivity|]. cbn [upto_slash].
  destruct (Ascii.eqb_spec c "/") as [->|Hc]; [reflexivity|].
  cbn [Js.includes Js.startsWith]. rewrite IH, orb_false_r.
  destruct (Ascii.eqb_spec "/" c) as [<-|_]; [contradiction | reflexivity].
Qed.

Section CacheFailure.
Context `{!JSON} `{!Intl}.

(** X5: a write that the store refuses is ignored: [saveCache] leaves the
    store as it was, and what [loadCache] returns does not change. *)
Theorem saveCache_failure_ignored (st : Storage) (now : Z) (obj : list repo) :
  available st && writable st = false ->
  saveCache st now obj = st /\
  forall t, loadCache (saveCache st now obj) t = loadCache st t.
Proof.
  intros Hrefused. assert (E : saveCache st now obj = st).
  { unfold saveCache, setItem. now rewrite Hrefused. }
  split; [exact E | intros t; now rewrite E].
Qed.

(** X6: [parseGithubProfile] returns the first non-empty segment of the
    path: the text between the leading slashes and the next slash, which is
    never empty and holds no slash; it returns nothing when the URL does not
    parse or the path has no such segment, and [initProjects] then throws
    before anything is read, fetched or rendered, as it does when the root
    element is missing. *)
Theorem initProjects_configuration_errors (o : options) (e : env) :
  (forall p,
      parseGithubProfile (Some p)
      = match skip_slashes p with
        | EmptyString => None
        | String c rest => Some (upto_slash (String c rest))
        end) /\
  (forall p user,
      parseGithubProfile (Some p) = Some user ->
      user <> "" /\ Js.includes user "/" = false) /\
  parseGithubProfile None = None /\
  (parseGithubProfile (url_pathname e) = None ->
   initProjects o e = Some (Thrown "Invalid GitHub profile URL")) /\
  (forall user, parseGithubProfile (url_pathname e) = Some user ->
   has_root e = false ->
   initProjects o e = Some (Thrown "projects-root element not found")).
Proof.
  split; [exact parseGithubProfile_segment|].
  split; [|split; [reflexivity|split]].
  - intros p user. rewrite parseGithubProfile_segment.
    destruct (skip_slashes p) as [|c rest] eqn:E; [discriminate|].
    intros [= <-]. pose proof (skip_slashes_head p) as Hhead. rewrite E in Hhead.
    split; [simpl; rewrite Hhead; discriminate|].
    apply (upto_slash_no_slash (String c rest)).
  - intros Hnone. unfold initProjects. now rewrite Hnone.
  - intros user Hu Hroot. unfold initProjects. now rewrite Hu, Hroot.
Qed.

(** X7: the sort modes of the panel: stars orders by stars descending,
    updated by time stamp descending, and any mode other than stars, updated
    and az keeps the order of the filtered list. *)
Theorem sort_modes (pf : bool) (repos : list repo) (c : controls) :
  (sort_value c = "stars" ->
   StronglySorted (fun a b => stars b <= stars a) (filtered pf repos c)) /\
  (sort_value c = "updated" ->
   StronglySorted (fun a b => date_ms (updated b) <= date_ms (updated a))
                  (filtered pf repos c)) /\
  (sort_value c <> "stars" -> sort_value c <> "updated" -> sort_value c <> "az" ->
   filtered pf repos c = filter_pass pf repos c).
Proof.
  unfold filtered, sort_pass. split; [|split].
  - intros ->. simpl.
    eapply StronglySorted_ind with
      (P := fun l => StronglySorted (fun a b => stars b <= stars a) l);
      [constructor | |
       apply (sort_sorted (fun a b : repo => stars b - stars a)); intros; lia].
    intros a l _ IH Hall. constructor; [exact IH|].
    eapply List.Forall_impl; [|exact Hall]. simpl. intros; lia.
  - intros ->. simpl.
    eapply StronglySorted_ind with
      (P := fun l => StronglySorted
                       (fun a b => date_ms (updated b) <= date_ms (updated a)) l);
      [constructor | |
       apply (sort_sorted (fun a b : repo => date_ms (updated b) - date_ms (updated a)));
       intros; lia].
    intros a l _ IH Hall. constructor; [exact IH|].
    eapply List.Forall_impl; [|exact Hall]. simpl. intros; lia.
  - intros H1 H2 H3.
    apply String.eqb_neq in H1, H2, H3. now rewrite H1, H2, H3.
Qed.

End CacheFailure.

Lemma saveCache_failure_ignored_witness :
  @saveCache MiniJson.codec full_store 1000 [cached_sample] = full_store.
Proof.
  apply (@saveCache_failure_ignored MiniJson.codec full_store 1000 [cached_sample]).
  reflexivity.
Defined.

(** ** Relative time, for every age *)

(** X8: for a time stamp that is not in the future, [relativeTime] shows a
    whole number and a unit, the number within the range of the unit: 0 to
    59 seconds, 1 to 59 minutes, 1 to 23 hours, 1 to 29 days, 1 to 11
    months, or at least 1 year; for a time stamp in the future it shows a
    negative number of seconds; for a missing time stamp it shows nothing. *)
Theorem relativeTime_shape (now then_ : Z) :
  (0 <= now - then_ ->
   exists u,
     relativeTime now (Some then_)
     = Js.string_of_Z (unit_value (now - then_) u) +:+ unit_suffix u /\
     unit_range u (unit_value (now - then_) u)) /\
  (now - then_ < 0 ->
   relativeTime now (Some then_) = Js.string_of_Z ((now - then_) / 1000) +:+ "s" /\
   (now - then_) / 1000 < 0) /\
  relativeTime now None = "".
Proof.
  split; [|split; [|reflexivity]].
  - intros Hage. unfold relativeTime, unit_value. cbv zeta.
    set (d := now - then_) in *.
    destruct (Z.ltb_spec (d / 1000) 60);
      [exists Seconds; split; [reflexivity | simpl; div_lia]|].
    destruct (Z.ltb_spec (d / 1000 / 60) 60);
      [exists Minutes; split; [do 2 f_equal | ]; simpl; div_lia|].
    destruct (Z.ltb_spec (d / 1000 / 60 / 60) 24);
      [exists Hours; split; [do 2 f_equal | ]; simpl; div_lia|].
    destruct (Z.ltb_spec (d / 1000 / 60 / 60 / 24) 30);
      [exists Days; split; [do 2 f_equal | ]; simpl; div_lia|].
    destruct (Z.ltb_spec (d / 1000 / 60 / 60 / 24 / 30) 12);
      [exists Months; split; [do 2 f_equal | ]; simpl; div_lia|].
    exists Years; split; [do 2 f_equal | ]; simpl; div_lia.
  - intros Hfuture. unfold relativeTime. cbv zeta.
    set (d := now - then_) in *.
    assert (Hneg : d / 1000 < 0) by div_lia.
    destruct (Z.ltb_spec (d / 1000) 60); [split; [reflexivity | exact Hneg] | lia].
Qed.

Lemma relativeTime_shape_witness :
  (exists u,
     relativeTime 5000000 (Some 1000000)
     = Js.string_of_Z (unit_value (5000000 - 1000000) u) +:+ unit_suffix u /\
     unit_range u (unit_value (5000000 - 1000000) u)) /\
  relativeTime 1000 (Some 4500) = "-4s".
Proof.
  split.
  - apply (proj1 (relativeTime_shape 5000000 1000000)). discriminate.
  - apply (proj1 (proj2 (relativeTime_shape 1000 4500))). reflexivity.
Defined.

(** ** Truncation, for every limit *)

Lemma slice_from_0 (s : string) (stop : Z) :
  Js.slice s 0 stop
  = String.substring 0
      (Z.to_nat (if stop <? 0 then Z.max (Z.of_nat (String.length s) + stop) 0
                 else Z.min stop (Z.of_nat (String.length s)))) s.
Proof.
  unfold Js.slice, Js.clamp_index.
  destruct (Z.ltb_spec 0 0) as [?|_]; [lia|].
  rewrite Z.min_l by lia. rewrite Z.sub_0_r. f_equal.
  destruct (stop <? 0); lia.
Qed.

Lemma truncate_cut (s : string) (n : Z) :
  s <> "" -> n < Z.of_nat (String.length s) ->
  truncate s n
  = String.substring 0
      (Z.to_nat (if n - 1 <? 0 then Z.max (Z.of_nat (String.length s) + (n - 1)) 0
                 else Z.min (n - 1) (Z.of_nat (String.length s)))) s
    +:+ ellipsis.
Proof.
  intros Hs Hn. unfold truncate. destruct s as [|c s]; [congruence|].
  destruct (Z.gtb_spec (Z.of_nat (String.length (String c s))) n); [|lia].
  now rewrite slice_from_0.
Qed.


(** X9: [truncate(str, n)] returns a text of at most [n] characters as it
    is; for a longer text and a limit of at least 1 it returns the first
    [n - 1] characters and the marker; for a limit of 0 or less it cuts
    [1 - n] characters off the end of a non-empty text and appends the
    marker, so that a smaller limit can give a longer result.  The marker
    is the three characters U+201A, U+00C4 and U+00B6 of the source file;
    a text that is cut (a non-empty text longer than the limit) is a
    beginning of the text that was passed followed by the marker, and so
    differs from that beginning. *)
Theorem truncate_cases (s : string) (n : Z) :
  ellipsis = utf8 marker_characters /\
  (s <> "" -> n < Z.of_nat (String.length s) ->
   exists kept rest,
     s = kept +:+ rest /\
     truncate s n = kept +:+ utf8 marker_characters /\
     truncate s n <> kept) /\
  (Z.of_nat (String.length s) <= n -> truncate s n = s) /\
  (1 <= n < Z.of_nat (String.length s) ->
   truncate s n = String.substring 0 (Z.to_nat (n - 1)) s +:+ ellipsis) /\
  (n <= 0 -> s <> "" ->
   truncate s n
   = String.substring 0 (String.length s - Z.to_nat (1 - n)) s +:+ ellipsis).
Proof.
  split; [reflexivity|]. split.
  { intros Hs Hn. pose proof (truncate_cut s n Hs Hn) as Hcut.
    destruct (substring_0_prefix
                (Z.to_nat (if n - 1 <? 0
                           then Z.max (Z.of_nat (String.length s) + (n - 1)) 0
                           else Z.min (n - 1) (Z.of_nat (String.length s)))) s)
      as [rest Hrest].
    eexists _, rest. split; [exact Hrest|]. split; [exact Hcut|].
    rewrite Hcut. apply append_marker_differs. }
  unfold truncate. split; [|split].
  - intros Hn. destruct s as [|c s]; [reflexivity|].
    destruct (Z.gtb_spec (Z.of_nat (String.length (String c s))) n); [lia | reflexivity].
  - intros [Hlo Hhi]. destruct s as [|c s]; [simpl in Hhi; lia|].
    destruct (Z.gtb_spec (Z.of_nat (String.length (String c s))) n); [|lia].
    rewrite slice_from_0. destruct (Z.ltb_spec (n - 1) 0); [lia|].
    do 2 f_equal. lia.
  - intros Hn Hs. destruct s as [|c s]; [congruence|].
    destruct (Z.gtb_spec (Z.of_nat (String.length (String c s))) n);
      [|simpl String.length in *; lia].
    rewrite slice_from_0. destruct (Z.ltb_spec (n - 1) 0); [|lia].
    do 2 f_equal. lia.
Qed.

Lemma truncate_cases_witness :
  truncate "abcdef" 4 = "abc" +:+ ellipsis /\
  truncate "abcdef" 0 = "abcde" +:+ ellipsis /\
  truncate "abcdef" 6 = "abcdef" /\
  (exists kept rest, "abcdef" = kept +:+ rest /\
     truncate "abcdef" 4 = kept +:+ utf8 [8218; 196; 182] /\
     truncate "abcdef" 4 <> kept).
Proof.
  destruct (truncate_cases "abcdef" 4) as [_ [Hcut [_ [Hmid _]]]].
  destruct (truncate_cases "abcdef" 0) as [_ [_ [_ [_ Hlow]]]].
  destruct (truncate_cases "abcdef" 6) as [_ [_ [Hfit _]]].
  split; [|split; [|split]].
  - apply Hmid. simpl. lia.
  - apply Hlow; [lia | discriminate].
  - apply Hfit. simpl. lia.
  - apply Hcut; [discriminate | simpl; lia].
Defined.

(** ** Escaping is faithful *)

Lemma escapeHtml_app (a b : string) :
  escapeHtml (a +:+ b) = escapeHtml a +:+ escapeHtml b.
Proof.
  induction a as [|c a IH]; [reflexivity|].
  change (String c a +:+ b) with (String c (a +:+ b)).
  rewrite !escapeHtml_cons, IH.
  destruct (Ascii.eqb c "&"); [reflexivity|].
  destruct (Ascii.eqb c "<"); [reflexivity|].
  destruct (Ascii.eqb c ">"); [reflexivity|].
  destruct (Ascii.eqb c "034"); reflexivity.
Qed.

Lemma escapeHtml_injective (a b : string) : escapeHtml a = escapeHtml b -> a = b.
Proof.
  revert b. induction a as [|x a IH]; intros [|y b].
  - reflexivity.
  - rewrite escapeHtml_cons. change (escapeHtml "") with "".
    destruct (Ascii.eqb y "&"); [discriminate|].
    destruct (Ascii.eqb y "<"); [discriminate|].
    destruct (Ascii.eqb y ">"); [discriminate|].
    destruct (Ascii.eqb y "034"); discriminate.
  - rewrite escapeHtml_cons. change (escapeHtml "") with "".
    destruct (Ascii.eqb x "&"); [discriminate|].
    destruct (Ascii.eqb x "<"); [discriminate|].
    destruct (Ascii.eqb x ">"); [discriminate|].
    destruct (Ascii.eqb x "034"); discriminate.
  - rewrite !escapeHtml_cons.
    destruct (Ascii.eqb_spec x "&") as [->|Hx1];
      [|destruct (Ascii.eqb_spec x "<") as [->|Hx2];
        [|destruct (Ascii.eqb_spec x ">") as [->|Hx3];
          [|destruct (Ascii.eqb_spec x "034") as [->|Hx4]]]];
    (destruct (Ascii.eqb_spec y "&") as [->|Hy1];
      [|destruct (Ascii.eqb_spec y "<") as [->|Hy2];
        [|destruct (Ascii.eqb_spec y ">") as [->|Hy3];
          [|destruct (Ascii.eqb_spec y "034") as [->|Hy4]]]]);
    simpl; intros E; try discriminate E;
      try (injection E as E; f_equal; now apply IH);
      try (injection E as E1 E; congruence).
  injection E as -> E. f_equal. now apply IH.
Qed.

(** X10: [escapeHtml] loses nothing: two different texts never escape to the
    same markup, the escaped form of a concatenation is the concatenation of
    the escaped forms, and a text without ampersand, angle bracket and
    double quote is returned as it is. *)
Theorem escapeHtml_faithful :
  (forall a b, escapeHtml a = escapeHtml b -> a = b) /\
  (forall a b, escapeHtml (a +:+ b) = escapeHtml a +:+ escapeHtml b) /\
  (forall s, has_markup_char s = false -> Js.includes s "&" = false ->
             escapeHtml s = s).
Proof.
  split; [exact escapeHtml_injective|]. split; [exact escapeHtml_app|].
  induction s as [|c s IH]; [reflexivity|]. simpl.
  unfold markup_char. intros Hm Ha.
  apply orb_false_iff in Hm as [Hc Hm].
  apply orb_false_iff in Hc as [Hc Hq]. apply orb_false_iff in Hc as [Hlt Hgt].
  apply orb_false_iff in Ha as [Hamp Ha].
  rewrite escapeHtml_cons, Hlt, Hgt, Hq.
  destruct (Ascii.eqb_spec c "&") as [->|_]; [discriminate Hamp|].
  simpl. f_equal. apply IH; [exact Hm|].
  destruct s; [reflexivity|]. simpl in *. exact Ha.
Qed.

(** ** Where a card can take markup from *)

Lemma count_markup_app (a b : string) :
  count_markup (a +:+ b) = (count_markup a + count_markup b)%nat.
Proof.
  induction a as [|c a IH]; simpl; [reflexivity|]. rewrite IH. lia.
Qed.

Lemma count_markup_escapeHtml (s : string) : count_markup (escapeHtml s) = 0%nat.
Proof.
  induction s as [|c s IH]; [reflexivity|].
  rewrite escapeHtml_cons, count_markup_app, IH.
  destruct (Ascii.eqb_spec c "&"); [reflexivity|].
  destruct (Ascii.eqb_spec c "<"); [reflexivity|].
  destruct (Ascii.eqb_spec c ">"); [reflexivity|].
  destruct (Ascii.eqb_spec c "034"); [reflexivity|].
  simpl. unfold markup_char.
  repeat match goal with
  | H : ?x <> ?y |- context [Ascii.eqb ?x ?y] =>
      destruct (Ascii.eqb_spec x y); [contradiction|]
  end. reflexivity.
Qed.

Lemma count_markup_digits (d : Decimal.uint) :
  count_markup (NilEmpty.string_of_uint d) = 0%nat.
Proof. induction d; simpl; assumption || reflexivity. Qed.

Lemma count_markup_string_of_Z (z : Z) : count_markup (Js.string_of_Z z) = 0%nat.
Proof.
  unfold Js.string_of_Z, NilZero.string_of_int, NilZero.string_of_uint.
  destruct (Z.to_int z) as [d|d]; destruct d; simpl;
    try reflexivity; apply count_markup_digits.
Qed.

Lemma count_markup_relativeTime (now : Z) (iso : option Z) :
  count_markup (relativeTime now iso) = 0%nat.
Proof.
  unfold relativeTime. destruct iso as [t|]; [|reflexivity]. cbv zeta.
  split_ltb; rewrite count_markup_app, count_markup_string_of_Z; reflexivity.
Qed.

Lemma count_markup_icons :
  count_markup star_icon = 0%nat /\ count_markup fork_icon = 0%nat /\
  count_markup clock_icon = 0%nat.
Proof. repeat split. Qed.

(** X11: the markup characters (angle brackets and double quotes) of a card
    are those of the template, 88 of them and 12 more with a demo link, and
    those of the record's name, source link and demo link: whatever the
    description, the language, the counts and the time stamp hold, they add
    none. *)
Theorem card_markup_sources (now : Z) (r : repo) :
  count_markup (card_innerHTML (buildCard now r))
  = (88 + count_markup (name r)
     + count_markup (Js.string_of_undef (html_url r))
     + (if Js.truthy_str (homepage r)
        then 12 + count_markup (Js.string_of_undef (homepage r))
        else 0))%nat.
Proof.
  unfold buildCard, card_markup, card_lines, title_line, desc_line, demo_link, attr.
  cbn [card_innerHTML Js.join].
  destruct count_markup_icons as [Hstar [Hfork Hclock]].
  destruct (Js.truthy_str (homepage r));
    rewrite !count_markup_app, !count_markup_escapeHtml, count_markup_relativeTime,
      !count_markup_string_of_Z, Hstar, Hfork, Hclock; cbn; lia.
Qed.

(** ** Deduplication, once more *)

Lemma first_named_In (n : string) (l : list repo) :
  In n (List.map name l) -> exists r, first_named n l = [r] /\ name r = n.
Proof.
  unfold first_named. induction l as [|x l IH]; simpl; [intros []|].
  destruct (has_name n x) eqn:E.
  - intros _. exists x. split; [reflexivity | now apply has_name_true].
  - intros [Hx|Hin]; [apply has_name_false in E; congruence | now apply IH].
Qed.

Lemma dedupeByName_names (l : list repo) (n : string) :
  In n (List.map name (dedupeByName l)) <-> In n (List.map name l).
Proof.
  split.
  - rewrite !in_map_iff. intros [r [Hn Hr]]. exists r. split; [exact Hn|].
    now apply dedupe_from_In in Hr.
  - intros Hn. destruct (first_named_In n l Hn) as [r [Hfirst Hname]].
    pose proof (dedupe_from_filter ∅ l n) as Hf.
    destruct (decide (n ∈ (∅ : gset string))) as [Hin|_];
      [now apply not_elem_of_empty in Hin|].
    rewrite Hfirst in Hf. apply in_map_iff. exists r. split; [exact Hname|].
    assert (Hr : In r (List.filter (has_name n) (dedupe_from ∅ l)))
      by (rewrite Hf; simpl; tauto).
    apply filter_In in Hr. tauto.
Qed.

(** X12: [dedupeByName] changes nothing when applied a second time; it
    keeps every name of its input (each exactly once) and adds none; its
    result is never longer than its input. *)
Theorem dedupeByName_idempotent (l : list repo) :
  dedupeByName (dedupeByName l) = dedupeByName l /\
  (forall n, In n (List.map name (dedupeByName l)) <-> In n (List.map name l)) /\
  NoDup (List.map name (dedupeByName l)) /\
  (length (dedupeByName l) <= length l)%nat.
Proof.
  split; [|split; [|split]].
  - unfold dedupeByName. apply dedupe_from_distinct; [apply dedupe_from_NoDup|].
    intros r _. apply not_elem_of_empty.
  - apply dedupeByName_names.
  - apply dedupe_from_NoDup.
  - apply sublist_length, dedupe_from_sublist.
Qed.

(** ** Writing the cache twice *)

Section CacheWrites.
Context `{!JSON}.

(** X13: [saveCache] replaces the entry as a whole: writing twice leaves
    the store that the second write alone would leave; the write touches no
    other key of the store. *)
Theorem saveCache_overwrites (st : Storage) (t1 t2 : Z) (a b : list repo) :
  saveCache (saveCache st t1 a) t2 b = saveCache st t2 b /\
  (forall k, k <> CACHE_KEY -> items (saveCache st t1 a) !! k = items st !! k) /\
  available (saveCache st t1 a) = available st /\
  writable (saveCache st t1 a) = writable st.
Proof.
  unfold saveCache, setItem.
  destruct (available st && writable st) eqn:E; simpl; [|rewrite E; auto].
  rewrite E. simpl. rewrite insert_insert_eq. split; [reflexivity|].
  split; [|auto]. intros k Hk. now rewrite lookup_insert_ne.
Qed.

End CacheWrites.

(** ** What a successful run leaves *)

Lemma keep_fetched_listed (excl : list string) (fetched kept : list raw_repo) :
  keep_fetched excl fetched = Some kept ->
  forall raw, In raw kept <-> In raw fetched /\ listed excl raw.
Proof.
  unfold listed. revert kept. induction fetched as [|x fetched IH]; intros kept; simpl.
  - intros [= <-] raw. simpl. tauto.
  - destruct (keep_fetched excl fetched) as [rest|] eqn:Erest.
    + specialize (IH rest eq_refl).
      destruct (r_fork x) eqn:Ef; simpl.
      { intros [= <-] raw. rewrite IH. split; [tauto|].
        intros [[<-|Hin] [H1 H2]]; [congruence | tauto]. }
      destruct (r_archived x) eqn:Ea; simpl.
      { intros [= <-] raw. rewrite IH. split; [tauto|].
        intros [[<-|Hin] [H1 [H2 H3]]]; [congruence | tauto]. }
      destruct (matchesPattern (r_name x) excl) as [[|]|] eqn:Em; simpl.
      * intros [= <-] raw. rewrite IH. split; [tauto|].
        intros [[<-|Hin] [H1 [H2 H3]]]; [congruence | tauto].
      * intros [= <-] raw. simpl. rewrite IH. split.
        -- intros [<-|Hin]; tauto.
        -- tauto.
      * discriminate.
    + destruct (r_fork x); simpl; [discriminate|].
      destruct (r_archived x); simpl; [discriminate|].
      destruct (matchesPattern (r_name x) excl); simpl; discriminate.
Qed.

Section RunFacts.
Context `{!JSON} `{!Intl}.

(** X14: after a successful primary request the record set of the run has
    no two records of the same name; its names are exactly the names of the
    pinned records and of the listed repositories that are neither forks,
    nor archived, nor excluded; every record is a pinned record or the
    normal form of such a repository; with pinned-first enabled no record
    whose name no pinned record carries stands before a record whose name a
    pinned record carries; and the set is what the run writes to the
    cache. *)
Theorem successful_run_invariants (o : options) (e : env) (fetched : list raw_repo)
    (repos : list repo) (st : Storage) (view : root_content) :
  repos_reply e = Some fetched ->
  initProjects o e = Some (Resolved repos st view) ->
  NoDup (List.map name repos) /\
  (forall n, In n (List.map name repos) <->
             In n (List.map name (pinned_records o e)) \/
             exists raw, In raw fetched /\ listed (exclude o) raw /\ r_name raw = n) /\
  (forall r, In r repos ->
             In r (pinned_records o e) \/
             exists raw, In raw fetched /\ listed (exclude o) raw /\ r = normalizeRepo raw) /\
  (pinnedFirst o = true ->
   forall l1 a l2 b l3,
     repos = l1 ++ a :: l2 ++ b :: l3 ->
     in_pinned_set (pinned_records o e) b ->
     in_pinned_set (pinned_records o e) a) /\
  st = saveCache (storage e) (now_done e) repos.
Proof.
  intros Hreply Hrun.
  destruct (initProjects_fetched o e fetched repos st view Hreply Hrun)
    as [kept [Hkept [Hrepos [Hst _]]]].
  pose proof (keep_fetched_listed _ _ _ Hkept) as Hlisted.
  split; [|split; [|split; [|split]]].
  - rewrite Hrepos. rewrite (Permutation_map name (sort_perm _ _)).
    apply dedupe_from_NoDup.
  - intros n. rewrite Hrepos. rewrite (Permutation_map name (sort_perm _ _)) at 1.
    unfold dedupeByName in *.
    change (dedupe_from ∅ ?l) with (dedupeByName l).
    rewrite dedupeByName_names, map_app, in_app_iff, map_map. simpl.
    split; (intros [Hpin|Hlist]; [now left | right]).
    + apply in_map_iff in Hlist as [raw [Hn Hraw]]. exists raw.
      apply Hlisted in Hraw. tauto.
    + destruct Hlist as [raw [Hin [Hl Hn]]]. apply in_map_iff. exists raw.
      split; [exact Hn | apply Hlisted; tauto].
  - intros r Hr. rewrite Hrepos in Hr. apply sort_In in Hr.
    apply dedupe_from_In in Hr as [Hr _]. apply in_app_or in Hr as [Hr|Hr]; [now left|].
    right. apply in_map_iff in Hr as [raw [<- Hraw]]. exists raw.
    apply Hlisted in Hraw. tauto.
  - intros Hpf l1 a l2 b l3 Hsplit Hb.
    rewrite Hpf, Hsplit in Hrepos. symmetry in Hrepos.
    exact (sorted_pinned_first _ _ _ _ _ _ _ Hrepos Hb).
  - exact Hst.
Qed.

End RunFacts.

Lemma successful_run_invariants_witness :
  NoDup (List.map name pinned_low_repos) /\
  List.map name pinned_low_repos = ["pin"; "popular"; "site"] /\
  List.map stars pinned_low_repos = [2; 50; 1] /\
  (forall r, In r pinned_low_repos ->
     in_pinned_set (pinned_records draft_options pinned_low_run) r ->
     name r = "pin").
Proof.
  assert (Hrun : exists st view,
             @initProjects MiniJson.codec code_unit_order draft_options pinned_low_run
             = Some (Resolved pinned_low_repos st view))
    by (eexists _, _; vm_compute; reflexivity).
  destruct Hrun as [st [view Hrun]].
  destruct (@successful_run_invariants MiniJson.codec code_unit_order
              draft_options pinned_low_run _ pinned_low_repos st view eq_refl Hrun)
    as [Hnd _].
  split; [exact Hnd|]. split; [reflexivity|]. split; [reflexivity|].
  intros r _ [Hr|[]]. symmetry. exact Hr.
Defined.

(** ** From one run to the next *)

Section NextRun.
Context `{!JSON} `{!Intl}.

(** X15: the record set of a successful run is what a later run renders
    when its own request fails no more than [CACHE_TTL] after the first run
    wrote the cache; a run that fails later than that renders the
    placeholder.  The store accepts the write, the clock of the write is not
    0 and the host's JSON returns the payload it printed. *)
Theorem cached_set_serves_next_run
    (o1 o2 : options) (e1 e2 : env) (fetched : list raw_repo)
    (repos : list repo) (st : Storage) (view : root_content) (user : string) :
  repos_reply e1 = Some fetched ->
  initProjects o1 e1 = Some (Resolved repos st view) ->
  available (storage e1) = true -> writable (storage e1) = true ->
  now_done e1 <> 0 ->
  JSON_stringify {| ts := Some (now_done e1); data := Some repos |} <> "" ->
  JSON_parse (JSON_stringify {| ts := Some (now_done e1); data := Some repos |})
  = Some {| ts := Some (now_done e1); data := Some repos |} ->
  storage e2 = st ->
  parseGithubProfile (url_pathname e2) = Some user ->
  has_root e2 = true ->
  repos_reply e2 = None ->
  (now_load e2 - now_done e1 <= CACHE_TTL ->
   initProjects o2 e2
   = Some (Resolved repos st
             (applyFilters (pinnedFirst o2) (now_done e2) repos (form e2)))) /\
  (CACHE_TTL < now_load e2 - now_done e1 ->
   initProjects o2 e2
   = Some (Resolved [fallback_record (now_done e2)] st
             (applyFilters (pinnedFirst o2) (now_done e2)
                [fallback_record (now_done e2)] (form e2)))).
Proof.
  intros Hreply Hrun Hav Hwr Hclock Hne Hparse Hstore Huser Hroot Hfail.
  destruct (initProjects_fetched o1 e1 fetched repos st view Hreply Hrun)
    as [kept [_ [_ [Hst _]]]].
  assert (Hload : loadCache (storage e2) (now_load e2)
                  = if now_load e2 - now_done e1 >? CACHE_TTL then None else Some repos).
  { rewrite Hstore, Hst. now apply loadCache_after_save. }
  unfold initProjects, try_fetch. rewrite Huser, Hroot, Hfail, Hload, Hstore. simpl.
  destruct (Z.gtb_spec (now_load e2 - now_done e1) CACHE_TTL);
    split; intros; try reflexivity; lia.
Qed.

(** X16: without a token the pinned listing plays no part: no pinned record
    enters the run and the run ends the same way whatever the GraphQL
    endpoint would reply; a GraphQL request that fails gives no pinned
    record either; and in a successful run without pinned records every
    record is the normal form of an element of the REST listing. *)
Theorem no_token_no_pinned (o : options) (e : env) (reply : option (list gql_node)) :
  (Js.truthy_str (githubToken o) = false ->
   pinned_records o e = [] /\
   initProjects o (with_pinned_reply reply e) = initProjects o e) /\
  (pinned_reply e = None -> pinned_records o e = []) /\
  (pinned_records o e = [] ->
   forall fetched repos st view,
     repos_reply e = Some fetched ->
     initProjects o e = Some (Resolved repos st view) ->
     forall r, In r repos -> exists raw, In raw fetched /\ r = normalizeRepo raw).
Proof.
  split; [|split].
  - intros Htoken. unfold initProjects, try_fetch, pinned_records, fetchPinned.
    rewrite Htoken. simpl. split; reflexivity.
  - intros Hnone. unfold pinned_records, fetchPinned. rewrite Hnone.
    now destruct (negb (Js.truthy_str (githubToken o))).
  - intros Hnone fetched repos st view Hreply Hrun r Hr.
    destruct (initProjects_fetched o e fetched repos st view Hreply Hrun)
      as [kept [Hkept [Hrepos _]]].
    rewrite Hrepos, Hnone in Hr. apply sort_In in Hr.
    apply dedupe_from_In in Hr as [Hr _]. simpl in Hr.
    apply in_map_iff in Hr as [raw [<- Hraw]]. exists raw. split; [|reflexivity].
    now apply (keep_fetched_sound _ _ _ _ Hkept Hraw).
Qed.

End NextRun.

Lemma cached_set_serves_next_run_witness :
  @initProjects MiniJson.codec code_unit_order default_options (run_after_draft 2000)
  = Some (Resolved draft_repos (storage (run_after_draft 2000))
            (@applyFilters code_unit_order true 2250 draft_repos idle_controls)) /\
  List.map name draft_repos = ["draft-p"; "site"].
Proof.
  assert (Hrun : exists view,
             @initProjects MiniJson.codec code_unit_order draft_options draft_run
             = Some (Resolved draft_repos (storage (run_after_draft 2000)) view))
    by (eexists; vm_compute; reflexivity).
  destruct Hrun as [view Hrun].
  split; [|reflexivity].
  apply (proj1 (@cached_set_serves_next_run MiniJson.codec code_unit_order
                  draft_options default_options draft_run (run_after_draft 2000)
                  _ draft_repos _ view "octocat"
                  eq_refl Hrun eq_refl eq_refl ltac:(discriminate) ltac:(discriminate)
                  eq_refl eq_refl eq_refl eq_refl eq_refl)).
  discriminate.
Defined.

Lemma no_token_no_pinned_witness :
  @initProjects MiniJson.codec code_unit_order default_options
    (with_pinned_reply (Some [node_named "pinned"]) draft_run)
  = @initProjects MiniJson.codec code_unit_order default_options draft_run.
Proof.
  apply (proj1 (@no_token_no_pinned MiniJson.codec code_unit_order default_options
                  draft_run (Some [node_named "pinned"]))).
  reflexivity.
Defined.

(** ** The option lists *)

Lemma unique_from_In (seen : gset string) (l : list string) (x : string) :
  In x (unique_from seen l) <-> In x l /\ x ∉ seen.
Proof.
  revert seen. induction l as [|y l IH]; intros seen; simpl; [tauto|].
  destruct (decide (y ∈ seen)) as [Hin|Hout]; simpl; rewrite IH.
  - split; [tauto|]. intros [[->|H1] H2]; [contradiction | tauto].
  - rewrite elem_of_union, elem_of_singleton. split.
    + intros [->|[H1 H2]]; [tauto|]. split; [tauto|]. intros H3. apply H2. now right.
    + intros [[->|H1] H2]; [now left|].
      destruct (decide (x = y)) as [->|Hne]; [now left|].
      right. split; [assumption|]. intros [H3|H3]; contradiction.
Qed.

Lemma unique_from_NoDup (seen : gset string) (l : list string) :
  NoDup (unique_from seen l).
Proof.
  revert seen. induction l as [|y l IH]; intros seen; simpl; [apply NoDup_nil_2|].
  destruct (decide (y ∈ seen)); [apply IH|].
  apply NoDup_cons_2; [|apply IH].
  rewrite list_elem_of_In, unique_from_In, elem_of_union, elem_of_singleton.
  intros [_ H]. apply H. now left.
Qed.

Lemma compare_code_units_le (a b : string) :
  compare_code_units a b <= 0 <-> (a <=? b)%string = true.
Proof.
  unfold compare_code_units, String.leb.
  destruct (String.compare a b); split; intros; try reflexivity; try lia; discriminate.
Qed.

Lemma compare_code_units_total (a b : string) :
  0 < compare_code_units a b -> compare_code_units b a <= 0.
Proof.
  unfold compare_code_units. rewrite (String.compare_antisym b a).
  destruct (String.compare a b); simpl; lia.
Qed.

Lemma compare_code_units_trans (a b c : string) :
  compare_code_units a b <= 0 -> compare_code_units b c <= 0 ->
  compare_code_units a c <= 0.
Proof.
  rewrite !compare_code_units_le. intros Hab Hbc.
  apply Is_true_true. apply Is_true_true in Hab, Hbc.
  exact (@transitivity _ String.le _ a b c Hab Hbc).
Qed.

Lemma StronglySorted_weaken {A} (R R' : A -> A -> Prop) (l : list A) :
  (forall a b, R a b -> R' a b) -> StronglySorted R l -> StronglySorted R' l.
Proof.
  intros Himp. induction 1 as [|a l Hs IH Hall]; constructor; [assumption|].
  eapply List.Forall_impl; [|exact Hall]. intros b. apply Himp.
Qed.

Lemma sort_strings_facts (l : list string) :
  NoDup l ->
  NoDup (sort_strings l) /\
  StronglySorted (fun a b => (a <=? b)%string = true) (sort_strings l) /\
  (forall x, In x (sort_strings l) <-> In x l).
Proof.
  intros Hnd. unfold sort_strings. split; [|split].
  - now rewrite sort_perm.
  - eapply StronglySorted_weaken;
      [|apply sort_sorted; [apply compare_code_units_total | apply compare_code_units_trans]].
    intros a b. apply compare_code_units_le.
  - apply sort_In.
Qed.

Lemma count_markup_options (l : list string) :
  count_markup (Js.join "" (List.map option_html l)) = (6 * length l)%nat.
Proof.
  assert (Hone : forall v, count_markup (option_html v) = 6%nat).
  { intros v. unfold option_html, attr.
    rewrite !count_markup_app, !count_markup_escapeHtml. reflexivity. }
  induction l as [|x l IH]; [reflexivity|].
  cbn [List.map Js.join length].
  destruct (List.map option_html l) as [|y l'] eqn:E.
  - destruct l; [|discriminate]. apply Hone.
  - rewrite !count_markup_app, Hone, IH. simpl count_markup at 1. lia.
Qed.

Section OptionLists.
Context `{!Intl}.

(** X20: the language select offers, after the entry for all languages,
    every non-empty language of the records once, in the order of the code
    units, and nothing else; the topic select does the same with the topics
    of the records.  Choosing an offered language, or an offered topic that
    is not empty, with the other controls at rest never leads to the
    empty-state message. *)
Theorem buildFilters_options (now : Z) (pf : bool) (data : list repo) :
  (NoDup (languages_of data) /\
   StronglySorted (fun a b => (a <=? b)%string = true) (languages_of data) /\
   forall l, In l (languages_of data) <-> l <> "" /\ exists r, In r data /\ language r = l) /\
  (NoDup (topics_of data) /\
   StronglySorted (fun a b => (a <=? b)%string = true) (topics_of data) /\
   forall t, In t (topics_of data) <-> exists r, In r data /\ In t (topics r)) /\
  (forall c,
     search_value c = "" -> pinned_only_checked c = false ->
     (In (language_value c) (languages_of data) /\ topic_value c = "" \/
      language_value c = "" /\ topic_value c <> "" /\ In (topic_value c) (topics_of data)) ->
     exists r rest,
       applyFilters pf now data c
       = Grid "projects-grid-inner" (List.map (buildCard now) (r :: rest))).
Proof.
  assert (Hlang : forall l, In l (languages_of data)
                            <-> l <> "" /\ exists r, In r data /\ language r = l).
  { intros l. unfold languages_of, unique.
    rewrite (proj2 (proj2 (sort_strings_facts _ (unique_from_NoDup ∅ _)))).
    rewrite unique_from_In, filter_In, in_map_iff.
    split.
    - intros [[[r [Hr Hin]] Hne] _]. split; [|now exists r].
      intros ->. discriminate.
    - intros [Hne [r [Hin Hr]]]. split; [|apply not_elem_of_empty].
      split; [now exists r|]. destruct (String.eqb_spec l ""); [contradiction|reflexivity]. }
  assert (Htopic : forall t, In t (topics_of data) <-> exists r, In r data /\ In t (topics r)).
  { intros t. unfold topics_of, unique.
    rewrite (proj2 (proj2 (sort_strings_facts _ (unique_from_NoDup ∅ _)))).
    rewrite unique_from_In, in_flat_map.
    split; [tauto|]. intros Hex. split; [assumption|apply not_elem_of_empty]. }
  split; [|split].
  - split; [|split; [|exact Hlang]];
      apply (sort_strings_facts _ (unique_from_NoDup ∅ _)).
  - split; [|split; [|exact Htopic]];
      apply (sort_strings_facts _ (unique_from_NoDup ∅ _)).
  - intros c Hq Hpo Hchoice.
    assert (Hsome : exists r, In r (filtered pf data c)).
    { assert (Hsub : forall r, substring_of (query_of c) (Js.toLowerCase (haystack r))).
      { intros r. unfold query_of. rewrite Hq. now exists "", (Js.toLowerCase (haystack r)). }
      assert (Hpin : pinned_only_active pf c = true ->
                     forall r, exists p, In p (firstn 10 data) /\ name p = name r).
      { unfold pinned_only_active. rewrite Hpo, andb_false_r. discriminate. }
      destruct Hchoice as [[Hin Ht]|[Hl [Hne Hin]]].
      - apply Hlang in Hin as [_ [r [Hr Hlr]]]. exists r.
        apply filtered_In. split; [assumption|].
        split; [intros Ha; now apply Hpin|]. split; [apply Hsub|].
        split; [right; now rewrite Hlr | now left].
      - apply Htopic in Hin as [r [Hr Htr]]. exists r.
        apply filtered_In. split; [assumption|].
        split; [intros Ha; now apply Hpin|]. split; [apply Hsub|].
        split; [now left|]. right. now apply in_map. }
    destruct Hsome as [r Hr]. unfold applyFilters.
    destruct (filtered pf data c) as [|r0 rest]; [contradiction|].
    now exists r0, rest.
Qed.

End OptionLists.

(** X21: the text of an option cannot leave its element: [buildFilters]
    escapes every language and topic, so the markup of a select has the six
    delimiters of each of its options and no other. *)
Theorem buildFilters_escapes (data : list repo) :
  count_markup (language_select (buildFilters data))
  = (6 * (1 + length (languages_of data)))%nat /\
  count_markup (topic_select (buildFilters data))
  = (6 * (1 + length (topics_of data)))%nat.
Proof.
  unfold buildFilters, attr. cbn [language_select topic_select].
  rewrite !count_markup_app, !count_markup_options. split; simpl; lia.
Qed.

(** ** The pinned-only view *)

Lemma filter_by_prefix_names (pre suf : list repo) :
  NoDup (List.map name (pre ++ suf)) ->
  List.filter (fun r => existsb (fun p => String.eqb (name p) (name r)) pre) (pre ++ suf)
  = pre.
Proof.
  intros Hnd. rewrite List.filter_app.
  rewrite List.map_app in Hnd. apply NoDup_app in Hnd as [_ [Hdisj _]].
  assert (Hpre : forall l, (forall r, In r l -> In r pre) ->
            List.filter (fun r => existsb (fun p => String.eqb (name p) (name r)) pre) l = l).
  { induction l as [|r l IH]; intros Hl; simpl; [reflexivity|].
    assert (Hr : existsb (fun p => String.eqb (name p) (name r)) pre = true).
    { apply existsb_exists. exists r. split; [apply Hl; now left | apply String.eqb_refl]. }
    rewrite Hr, IH; [reflexivity|]. intros r' Hr'. apply Hl. now right. }
  assert (Hsuf : forall l, (forall r, In r l -> In r suf) ->
            List.filter (fun r => existsb (fun p => String.eqb (name p) (name r)) pre) l = []).
  { induction l as [|r l IH]; intros Hl; simpl; [reflexivity|].
    destruct (existsb _ pre) eqn:Hr.
    - exfalso. apply existsb_exists in Hr as [p [Hp Heq]].
      apply String.eqb_eq in Heq.
      apply (Hdisj (name p)).
      + apply list_elem_of_In, in_map, Hp.
      + rewrite Heq. apply list_elem_of_In, in_map, Hl. now left.
    - apply IH. intros r' Hr'. apply Hl. now right. }
  rewrite (Hpre pre), (Hsuf suf); auto using app_nil_r.
Qed.

Section PinnedOnly.
Context `{!Intl}.

(** X22: when no two records have the same name, the pinned-only view is
    the view of the first ten records of the list, pinned or not: the other
    filters and the sort mode apply to these ten, and the grid never shows
    more than ten cards. *)
Theorem pinned_only_first_ten (now : Z) (repos : list repo) (c : controls) :
  NoDup (List.map name repos) ->
  pinned_only_checked c = true ->
  filtered true repos c = filtered false (firstn 10 repos) c /\
  applyFilters true now repos c = applyFilters false now (firstn 10 repos) c /\
  (length (filtered true repos c) <= 10)%nat.
Proof.
  intros Hnd Hpo.
  assert (Hpass : filter_pass true repos c = filter_pass false (firstn 10 repos) c).
  { pose proof (filter_by_prefix_names (firstn 10 repos) (skipn 10 repos)) as Hfirst.
    rewrite firstn_skipn in Hfirst.
    unfold filter_pass. rewrite Hpo. cbn [andb]. cbv zeta.
    now rewrite (Hfirst Hnd). }
  assert (Heq : filtered true repos c = filtered false (firstn 10 repos) c).
  { unfold filtered. now rewrite Hpass. }
  split; [assumption|]. split; [unfold applyFilters; now rewrite Heq|].
  rewrite Heq.
  rewrite (Permutation_length (filtered_perm false (firstn 10 repos) c)).
  etransitivity; [apply filter_length_le|]. apply firstn_le_length.
Qed.

End PinnedOnly.

Lemma pinned_only_first_ten_witness :
  @filtered code_unit_order true eleven (with_pinned_only true idle_controls)
  = @filtered code_unit_order false (firstn 10 eleven) (with_pinned_only true idle_controls).
Proof.
  apply (@pinned_only_first_ten code_unit_order 0 eleven
           (with_pinned_only true idle_controls)); [|reflexivity].
  repeat (apply NoDup_cons_2; [rewrite list_elem_of_In; simpl; intuition discriminate|]).
  apply NoDup_nil_2.
Defined.

(** ** Expiry of the cache *)

Section CacheExpiry.
Context `{!JSON}.

(** X3: a cache entry only grows older: a set that [loadCache] still
    returns at some time is the set it returned at every earlier time, and
    once [loadCache] returns nothing it returns nothing at every later time,
    as long as the store is not written. *)
Theorem loadCache_expires (st : Storage) (now later : Z) :
  now <= later ->
  (forall d, loadCache st later = Some d -> loadCache st now = Some d) /\
  (loadCache st now = None -> loadCache st later = None).
Proof.
  intros Hle. unfold loadCache.
  destruct (getItem st CACHE_KEY) as [[[|c raw]|]|]; try (split; [discriminate|reflexivity]).
  destruct (JSON_parse (String c raw)) as [parsed|]; [|split; [discriminate|reflexivity]].
  destruct (ts parsed) as [[|t|t]|], (data parsed) as [d0|];
    try (split; [discriminate|reflexivity]).
  - destruct (Z.gtb_spec (now - Z.pos t) CACHE_TTL), (Z.gtb_spec (later - Z.pos t) CACHE_TTL);
      split; intros; try discriminate; try reflexivity; try assumption; lia.
  - destruct (Z.gtb_spec (now - Z.neg t) CACHE_TTL), (Z.gtb_spec (later - Z.neg t) CACHE_TTL);
      split; intros; try discriminate; try reflexivity; try assumption; lia.
Qed.

End CacheExpiry.

Lemma loadCache_expires_witness :
  @loadCache MiniJson.codec (storage (run_after_draft 0)) 2000 = Some draft_repos.
Proof.
  refine (proj1 (@loadCache_expires MiniJson.codec (storage (run_after_draft 0))
                   2000 3000 _) draft_repos _).
  - discriminate.
  - vm_compute. reflexivity.
Defined.

(** ** Debouncing *)

Section Debounce.
Context {A : Type}.
Implicit Types (st : debounced A) (calls : list (Z * A)).

Lemma db_call_holds (ms now : Z) (a : A) st (pend : option (Z * A)) :
  db_holds st pend -> db_holds (db_call ms now a st) (Some (now + ms, a)).
Proof.
  intros Hst. exists (db_next st). split; [reflexivity|].
  unfold db_call. cbn [db_pending].
  assert (Hclear : clearTimeout (db_handle st) (db_pending st) = ∅).
  { destruct pend as [v|]; simpl in Hst.
    - destruct Hst as [h [-> ->]]. simpl. apply delete_singleton_eq.
    - rewrite Hst. destruct (db_handle st); simpl; [apply delete_empty | reflexivity]. }
  rewrite Hclear. apply insert_empty.
Qed.

Lemma db_fire_holds (now : Z) st (pend : option (Z * A)) :
  db_holds st pend ->
  db_holds (fst (db_fire now st))
    (match pend with
     | Some v => if fst v <=? now then None else Some v
     | None => None
     end) /\
  snd (db_fire now st) = pending_fires pend now.
Proof.
  intros Hst. unfold db_fire, db_due. cbn [fst snd db_pending db_handle].
  destruct pend as [v|]; simpl in Hst.
  - destruct Hst as [h [Hh Hp]]. rewrite Hp, map_to_list_singleton. simpl.
    destruct (fst v <=? now); simpl.
    + split; [apply delete_singleton_eq | reflexivity].
    + split; [now exists h | reflexivity].
  - rewrite Hst, map_to_list_empty. simpl. now split.
Qed.

Lemma db_run_expected (ms : Z) calls (stop : Z) st (pend : option (Z * A)) :
  db_holds st pend ->
  snd (db_run ms st calls) ++ snd (db_fire stop (fst (db_run ms st calls)))
  = pending_fires pend (next_time calls stop) ++ db_expected ms calls stop.
Proof.
  revert st pend. induction calls as [|[now a] rest IH]; intros st pend Hst.
  - simpl. rewrite app_nil_r. apply (db_fire_holds stop st pend Hst).
  - cbn [db_run next_time db_expected fst].
    destruct (db_fire_holds now st pend Hst) as [Hst1 Hfired].
    destruct (db_fire now st) as [st1 fired] eqn:Efire. cbn [fst snd] in Hst1, Hfired.
    pose proof (db_call_holds ms now a st1 _ Hst1) as Hst2.
    specialize (IH _ _ Hst2).
    destruct (db_run ms (db_call ms now a st1) rest) as [st2 later] eqn:Erun.
    cbn [fst snd] in IH |- *.
    rewrite <- app_assoc, IH, Hfired. reflexivity.
Qed.

Lemma db_expected_burst (ms : Z) calls (call : Z * A) (stop : Z) :
  burst ms (calls ++ [call]) ->
  db_expected ms (calls ++ [call]) stop = fires_before ms call stop.
Proof.
  induction calls as [|c rest IH]; intros Hb.
  - simpl. apply app_nil_r.
  - change ((c :: rest) ++ [call]) with (c :: (rest ++ [call])) in Hb |- *.
    cbn [db_expected burst] in Hb |- *. destruct Hb as [Hgap Hb].
    rewrite (IH Hb). unfold fires_before at 1.
    destruct (rest ++ [call]) as [|next more] eqn:E.
    + now destruct rest.
    + destruct (Z.leb_spec (fst c + ms) (fst next)); [lia | reflexivity].
Qed.

Lemma db_expected_length (ms : Z) calls (stop : Z) :
  (length (db_expected ms calls stop) <= length calls)%nat.
Proof.
  induction calls as [|c rest IH]; simpl; [lia|].
  rewrite length_app. unfold fires_before.
  destruct (fst c + ms <=? _); simpl; lia.
Qed.


(** X19: a debounced function calls [fn] once for every call that is
    followed by [ms] of silence, [ms] after that call and with its
    arguments, and for no other call (a time-out that is due when the next
    call comes runs before it).  So a burst of calls, each less than [ms]
    after the one before, leads to one call of [fn], with the arguments of
    the last call of the burst, and to none before [ms] have passed since
    that call; and [fn] is never called more often than the debounced
    function was. *)
Theorem debounce_calls (ms : Z) calls (stop : Z) :
  db_trace ms calls stop = db_expected ms calls stop /\
  (length (db_trace ms calls stop) <= length calls)%nat /\
  (forall before t a,
     calls = before ++ [(t, a)] -> burst ms calls ->
     db_trace ms calls stop = if t + ms <=? stop then [(t + ms, a)] else []).
Proof.
  assert (Htrace : db_trace ms calls stop = db_expected ms calls stop).
  { unfold db_trace.
    pose proof (db_run_expected ms calls stop db_idle None eq_refl) as Hrun.
    destruct (db_run ms db_idle calls) as [st fired]. exact Hrun. }
  split; [assumption|]. rewrite Htrace. split; [apply db_expected_length|].
  intros before t a -> Hb. now rewrite db_expected_burst.
Qed.

End Debounce.

Example debounce_burst_of_three :
  db_trace 220 [(0, "a"); (100, "ab"); (300, "abc")] 1000 = [(520, "abc")] /\
  db_trace 220 [(0, "a"); (100, "ab"); (300, "abc")] 519 = [] /\
  db_trace 220 [(0, "a"); (400, "ab")] 1000 = [(220, "a"); (620, "ab")].
Proof. repeat split; vm_compute; reflexivity. Qed.

(** ** The header scripts *)

Lemma classList_toggle_elem (cls : string) (force : bool) (classes : gset string)
    (c : string) :
  c ∈ classList_toggle cls force classes
  <-> (if decide (c = cls) then force = true else c ∈ classes).
Proof.
  unfold classList_toggle. destruct force.
  - rewrite elem_of_union, elem_of_singleton. destruct (decide (c = cls)); intuition.
  - rewrite elem_of_difference, elem_of_singleton.
    destruct (decide (c = cls)); intuition congruence.
Qed.

Lemma setExpanded_synced (val : bool) (h : header_state) : menu_synced (setExpanded val h).
Proof.
  unfold menu_synced, setExpanded. cbn [aria_expanded header_classes]. do 2 f_equal.
  destruct val.
  - rewrite bool_decide_eq_true_2; [reflexivity|].
    apply classList_toggle_elem. now rewrite decide_True.
  - rewrite bool_decide_eq_false_2; [reflexivity|].
    rewrite classList_toggle_elem, decide_True; [discriminate|reflexivity].
Qed.

Lemma handle_synced (h : header_state) (ev : header_event) :
  (sets_menu ev = true -> menu_synced (handle h ev)) /\
  (menu_synced h -> menu_synced (handle h ev)).
Proof.
  destruct ev as [|tag w|w|y p]; simpl.
  - split; intros _; apply setExpanded_synced.
  - destruct (String.eqb tag "A" && (w <=? 720)); split; try discriminate; auto;
      intros _; apply setExpanded_synced.
  - destruct (w >? 720); split; try discriminate; auto; intros _; apply setExpanded_synced.
  - split; [discriminate|]. unfold menu_synced, onScroll.
    cbn [aria_expanded header_classes]. intros ->. do 2 f_equal.
    apply bool_decide_ext.
    destruct (scroll_position y p >? 24);
      rewrite ?elem_of_union, ?elem_of_difference, ?elem_of_singleton;
      intuition congruence.
Qed.

Lemma handle_all_synced (evs : list header_event) (h : header_state) :
  menu_synced h \/ existsb sets_menu evs = true -> menu_synced (handle_all h evs).
Proof.
  unfold handle_all. revert h.
  induction evs as [|ev evs IH]; intros h; simpl.
  - intros [Hs|Hs]; [assumption|discriminate].
  - intros [Hs|Hs]; apply IH.
    + left. now apply (proj2 (handle_synced h ev)).
    + apply orb_true_iff in Hs as [Hs|Hs];
        [left; now apply (proj1 (handle_synced h ev)) | now right].
Qed.

Lemma toggle_twice (h : header_state) :
  menu_synced h -> handle (handle h ToggleClick) ToggleClick = h.
Proof.
  destruct h as [a cl]. unfold menu_synced. cbn [aria_expanded header_classes].
  intros ->. unfold handle, setExpanded. cbn [aria_expanded header_classes].
  destruct (bool_decide_reflect ("nav-open" ∈ cl)) as [Hin|Hout]; simpl; f_equal.
  - apply set_eq. intros c.
    rewrite elem_of_union, elem_of_difference, elem_of_singleton.
    destruct (decide (c = "nav-open")) as [->|]; intuition.
  - apply set_eq. intros c.
    rewrite elem_of_difference, elem_of_union, elem_of_singleton.
    destruct (decide (c = "nav-open")) as [->|]; intuition.
Qed.

Lemma handle_all_app (h : header_state) (evs evs' : list header_event) :
  handle_all h (evs ++ evs') = handle_all (handle_all h evs) evs'.
Proof. apply fold_left_app. Qed.

(** X17: the menu button and the header stay in sync: once an event has
    reached [setExpanded], or from a state in sync, the attribute
    [aria-expanded] is [true] exactly when the header has the class
    [nav-open], whatever events follow; in such a state a second click on
    the button undoes the first; a link of the menu clicked at a width of at
    most 720 and a resize to a width above 720 close the menu. *)
Theorem menu_in_sync (h : header_state) (evs : list header_event) :
  menu_synced h \/ existsb sets_menu evs = true ->
  menu_synced (handle_all h evs) /\
  handle_all (handle_all h evs) [ToggleClick; ToggleClick] = handle_all h evs /\
  (forall w, w <= 720 ->
     aria_expanded (handle_all h (evs ++ [NavClick "A" w])) = Some "false" /\
     "nav-open" ∉ header_classes (handle_all h (evs ++ [NavClick "A" w]))) /\
  (forall w, 720 < w ->
     aria_expanded (handle_all h (evs ++ [Resize w])) = Some "false" /\
     "nav-open" ∉ header_classes (handle_all h (evs ++ [Resize w]))).
Proof.
  intros Hs. pose proof (handle_all_synced evs h Hs) as Hsync.
  split; [assumption|]. split; [now apply toggle_twice|].
  split; intros w Hw; rewrite handle_all_app; simpl.
  - destruct (Z.leb_spec w 720); [|lia]. simpl. split; [reflexivity|].
    rewrite elem_of_difference, elem_of_singleton. tauto.
  - destruct (Z.gtb_spec w 720); [|lia]. simpl. split; [reflexivity|].
    rewrite elem_of_difference, elem_of_singleton. tauto.
Qed.

Lemma menu_in_sync_witness :
  menu_synced (handle_all {| aria_expanded := None; header_classes := ∅ |}
                 [Scroll (Some 30) 30; ToggleClick; Scroll None 0]).
Proof.
  exact (proj1 (menu_in_sync {| aria_expanded := None; header_classes := ∅ |}
                  [Scroll (Some 30) 30; ToggleClick; Scroll None 0]
                  (or_intror eq_refl))).
Defined.

Lemma handle_same_menu (h h' : header_state) (ev : header_event) :
  same_menu h h' ->
  same_menu (handle h ev) (if is_scroll ev then h' else handle h' ev).
Proof.
  unfold same_menu. intros [Ha Hc].
  assert (Hset : forall v,
             aria_expanded (setExpanded v h) = aria_expanded (setExpanded v h') /\
             ("nav-open" ∈ header_classes (setExpanded v h)
              <-> "nav-open" ∈ header_classes (setExpanded v h'))).
  { intros v. split; [reflexivity|]. unfold setExpanded. cbn [header_classes].
    rewrite !classList_toggle_elem. now rewrite decide_True. }
  destruct ev as [|tag w|w|y p]; simpl.
  - rewrite Ha. apply Hset.
  - destruct (String.eqb tag "A" && (w <=? 720)); [apply Hset | now split].
  - destruct (w >? 720); [apply Hset | now split].
  - split; [assumption|]. rewrite <- Hc.
    destruct (scroll_position y p >? 24);
      rewrite ?elem_of_union, ?elem_of_difference, ?elem_of_singleton;
      intuition congruence.
Qed.

Lemma handle_all_same_menu (evs : list header_event) (h h' : header_state) :
  same_menu h h' ->
  same_menu (handle_all h evs)
            (handle_all h' (List.filter (fun ev => negb (is_scroll ev)) evs)).
Proof.
  unfold handle_all. revert h h'.
  induction evs as [|ev evs IH]; intros h h' Hs; simpl; [assumption|].
  pose proof (handle_same_menu h h' ev Hs) as Hstep.
  destruct (is_scroll ev); simpl; now apply IH.
Qed.

Lemma handle_scrolled (h : header_state) (ev : header_event) :
  "scrolled" ∈ header_classes (handle h ev)
  <-> match ev with
      | Scroll y p => 24 < scroll_position y p
      | _ => "scrolled" ∈ header_classes h
      end.
Proof.
  assert (Hset : forall v, "scrolled" ∈ header_classes (setExpanded v h)
                           <-> "scrolled" ∈ header_classes h).
  { intros v. unfold setExpanded. cbn [header_classes].
    rewrite classList_toggle_elem. now rewrite decide_False. }
  destruct ev as [|tag w|w|y p]; simpl.
  - apply Hset.
  - destruct (String.eqb tag "A" && (w <=? 720)); [apply Hset | reflexivity].
  - destruct (w >? 720); [apply Hset | reflexivity].
  - destruct (Z.gtb_spec (scroll_position y p) 24);
      rewrite ?elem_of_union, ?elem_of_difference, ?elem_of_singleton;
      intuition lia.
Qed.

Lemma handle_all_scrolled (evs : list header_event) (h : header_state) :
  List.forallb (fun ev => negb (is_scroll ev)) evs = true ->
  ("scrolled" ∈ header_classes (handle_all h evs) <-> "scrolled" ∈ header_classes h).
Proof.
  unfold handle_all. revert h.
  induction evs as [|ev evs IH]; intros h; simpl; [reflexivity|].
  intros Hall. apply andb_true_iff in Hall as [Hev Hall].
  rewrite (IH _ Hall), handle_scrolled. now destruct ev.
Qed.

Lemma handle_other_class (h : header_state) (ev : header_event) (c : string) :
  c <> "nav-open" -> c <> "scrolled" ->
  (c ∈ header_classes (handle h ev) <-> c ∈ header_classes h).
Proof.
  intros Hn Hs.
  assert (Hset : forall v, c ∈ header_classes (setExpanded v h) <-> c ∈ header_classes h).
  { intros v. unfold setExpanded. cbn [header_classes].
    rewrite classList_toggle_elem. now rewrite decide_False. }
  destruct ev as [|tag w|w|y p]; simpl.
  - apply Hset.
  - destruct (String.eqb tag "A" && (w <=? 720)); [apply Hset | reflexivity].
  - destruct (w >? 720); [apply Hset | reflexivity].
  - destruct (scroll_position y p >? 24);
      rewrite ?elem_of_union, ?elem_of_difference, ?elem_of_singleton; intuition.
Qed.

(** X18: the two header scripts do not disturb each other.  What the menu
    shows after a sequence of events is what it shows after the same
    sequence without its scroll events; the class [scrolled] is on the
    header exactly when the position read at the last scroll event was
    above 24, whatever menu events came before or after; and no event
    touches a class other than [nav-open] and [scrolled]. *)
Theorem header_scripts_independent (h : header_state) (evs : list header_event) :
  same_menu (handle_all h evs)
            (handle_all h (List.filter (fun ev => negb (is_scroll ev)) evs)) /\
  (forall before after y p,
     evs = before ++ Scroll y p :: after ->
     List.forallb (fun ev => negb (is_scroll ev)) after = true ->
     ("scrolled" ∈ header_classes (handle_all h evs) <-> 24 < scroll_position y p)) /\
  (List.forallb (fun ev => negb (is_scroll ev)) evs = true ->
   ("scrolled" ∈ header_classes (handle_all h evs) <-> "scrolled" ∈ header_classes h)) /\
  (forall c, c <> "nav-open" -> c <> "scrolled" ->
     (c ∈ header_classes (handle_all h evs) <-> c ∈ header_classes h)).
Proof.
  split; [|split; [|split]].
  - apply handle_all_same_menu. now split.
  - intros before after y p -> Hafter.
    change (before ++ Scroll y p :: after) with (before ++ [Scroll y p] ++ after).
    rewrite !handle_all_app, (handle_all_scrolled after _ Hafter).
    apply (handle_scrolled _ (Scroll y p)).
  - apply handle_all_scrolled.
  - intros c Hn Hs. unfold handle_all. revert h.
    induction evs as [|ev evs IH]; intros h; simpl; [reflexivity|].
    rewrite IH. now apply handle_other_class.
Qed.
